(** * The card-draw core: StudentDataManager (the pool) and CardDrawEngine

    A shallow embedding of [js/modules/StudentDataManager.js] and of the
    [CardDrawEngine] class, followed by the properties the specification
    states about them.  (The sources hold a second copy of
    [StudentDataManager]; it differs only in the names and avatars of the
    default roster.)

    Conventions of the embedding.
    - A JavaScript object has an identity and fields.  A student object is
      a pair [(r, s)] of its reference [r] (allocated from the counter
      [nextRef]) and its current field values [s].  The array
      [this.students] is the list of these pairs; mutating an object found
      in the array rewrites its entry in place.  History records and
      notifications keep the reference only.
    - Student ids are JavaScript numbers used as integers; [Math.max()] of
      no argument is [-Infinity], so ids range over [jsnum].  The sum
      [+ 1] of [addStudent] rounds as binary64 does; of the difference in
      the comparator of [sort] only the sign is read, which rounding
      keeps.
    - Weights and [Math.random()] values are binary64 floats ([float]);
      the weights object is a plain object, so reading a rarity it has no
      own property for can yield a property of [Object.prototype].
    - [Math.random()] and [new Date().toISOString()] are inputs of the
      operation that calls them: [random i] and [clock i] are what the
      calls made for the [i]-th element, or the [i]-th call, return.
    - Listeners are external: [emit] appends the notification to a log. *)

From Stdlib Require Import ZArith List Floats Bool.
From stdpp Require Import base option list gmap strings pretty.
Import ListNotations.

Set Warnings "-inexact-float".

Open Scope string_scope.
Open Scope Z_scope.
Open Scope list_scope.

(** ** JavaScript numbers used as ids *)

Inductive jsnum : Type :=
| NegInfinity
| Finite (z : Z).

#[global] Instance jsnum_eq_dec : EqDecision jsnum.
Proof. solve_decision. Defined.

(** The binary64 number nearest to the integer [z], ties to even: [z]
    itself up to 2^53 in magnitude, and beyond that the 53 leading bits of
    [z], rounded, at their place. *)
Definition round_binary64 (z : Z) : Z :=
  let a := Z.abs z in
  if a <? 2 ^ 53 then z
  else
    let e := Z.log2 a - 52 in
    let q := a / 2 ^ e in
    let r := a mod 2 ^ e in
    let q' := if 2 * r <? 2 ^ e then q
              else if 2 ^ e <? 2 * r then q + 1
              else if Z.even q then q else q + 1 in
    Z.sgn z * (q' * 2 ^ e).

(** [x + 1], a binary64 addition: the sum is rounded, so from 2^53 on it
    can be [x] itself.  No binary64 number is large enough for [x + 1] to
    overflow. *)
Definition jsnum_succ (x : jsnum) : jsnum :=
  match x with
  | NegInfinity => NegInfinity
  | Finite z => Finite (round_binary64 (z + 1))
  end.

Definition jsnum_max (x y : jsnum) : jsnum :=
  match x, y with
  | NegInfinity, _ => y
  | _, NegInfinity => x
  | Finite a, Finite b => Finite (Z.max a b)
  end.

(** [Math.max(...xs)]; [-Infinity] when [xs] is empty. *)
Definition Math_max (xs : list jsnum) : jsnum :=
  foldr jsnum_max NegInfinity xs.

(** Truthiness of a number in [x || d]: [0] is falsy. *)
Definition jsnum_truthy (x : jsnum) : bool :=
  match x with
  | Finite 0 => false
  | _ => true
  end.

(** [a - b > 0], the case in which the comparator [(a, b) => a - b] puts
    [b] first.  [-Infinity - -Infinity] is [NaN], which [sort] reads as 0. *)
Definition jsnum_sub_pos (a b : jsnum) : bool :=
  match a, b with
  | NegInfinity, _ => false
  | Finite _, NegInfinity => true
  | Finite x, Finite y => y <? x
  end.

(** [x <= y] in the order of the number line. *)
Definition jsnum_le (x y : jsnum) : Prop :=
  match x, y with
  | NegInfinity, _ => True
  | Finite _, NegInfinity => False
  | Finite a, Finite b => a <= b
  end.

Definition jsnum_lt (x y : jsnum) : Prop :=
  match x, y with
  | _, NegInfinity => False
  | NegInfinity, Finite _ => True
  | Finite a, Finite b => a < b
  end.

(** A positive integer. *)
Definition jsnum_positive (x : jsnum) : Prop :=
  match x with
  | NegInfinity => False
  | Finite z => 0 < z
  end.

(** ** JavaScript numbers used as weights and random values *)

(** Truthiness of a float in [w || 1]: [0], [-0] and [NaN] are falsy. *)
Definition float_truthy (w : float) : bool :=
  negb (PrimFloat.eqb w 0%float) && PrimFloat.eqb w w.

(** [Math.floor(x)] as an array index; [None] for [NaN] and infinities. *)
Definition Math_floor (x : float) : option Z :=
  match Prim2SF x with
  | S754_zero _ => Some 0
  | S754_finite sign m e =>
      let v := if sign then Z.neg m else Z.pos m in
      Some (if 0 <=? e then v * 2 ^ e else v / 2 ^ (- e))
  | _ => None
  end.

(** The length of an array as a number. *)
Definition float_of_nat (n : nat) : float :=
  PrimFloat.of_uint63 (Uint63.of_Z (Z.of_nat n)).

(** [xs[i]] for a number [i]: [undefined] off the array. *)
Definition array_get {A} (xs : list A) (i : option Z) : option A :=
  match i with
  | Some z => if 0 <=? z then xs !! Z.to_nat z else None
  | None => None
  end.

(** [s || d] on strings: the empty string is falsy, and so is a missing
    field. *)
Definition string_or (s : option string) (d : string) : string :=
  match s with
  | Some x => if String.eqb x "" then d else x
  | None => d
  end.

(** ** Students *)

Record Student : Type := mkStudent {
  id : jsnum;
  name : string;
  avatar : string;
  rarity : string;
  isDrawn : bool;
  drawnAt : option string
}.

(** A reference to a student object. *)
Abbreviation ref := nat (only parsing).

(** A student object: its identity and its fields. *)
Abbreviation StudentObj := (ref * Student)%type (only parsing).

Definition objId (o : StudentObj) : jsnum := id (snd o).

(** [student.isDrawn = true; student.drawnAt = now]. *)
Definition setDrawn (now : string) (s : Student) : Student :=
  mkStudent (id s) (name s) (avatar s) (rarity s) true (Some now).

(** [student.isDrawn = false; student.drawnAt = null]. *)
Definition clearDrawn (s : Student) : Student :=
  mkStudent (id s) (name s) (avatar s) (rarity s) false None.

(** One record of an import payload, and what [exportStudents] produces:
    a field that is absent reads as [undefined] ([None]). *)
Record StudentData : Type := mkData {
  data_id : option jsnum;
  data_name : option string;
  data_avatar : option string;
  data_rarity : option string
}.

(** An element of a payload array: an object (or any value whose fields
    read as [undefined]), or [null]/[undefined], on which reading a field
    throws. *)
Inductive Item : Type :=
| Obj (data : StudentData)
| Nullish.

(** The argument of [importStudents]. *)
Inductive Payload : Type :=
| NotAnArray
| Array (items : list Item).

(** The fields [Object.assign(student, updates)] may overwrite. *)
Record Updates : Type := mkUpdates {
  upd_id : option jsnum;
  upd_name : option string;
  upd_avatar : option string;
  upd_rarity : option string;
  upd_isDrawn : option bool;
  upd_drawnAt : option (option string)
}.

Definition assign (s : Student) (u : Updates) : Student :=
  mkStudent (default (id s) (upd_id u))
            (default (name s) (upd_name u))
            (default (avatar s) (upd_avatar u))
            (default (rarity s) (upd_rarity u))
            (default (isDrawn s) (upd_isDrawn u))
            (default (drawnAt s) (upd_drawnAt u)).

(** ** StudentDataManager *)

Inductive DataUpdate : Type :=
| UpdStudentDrawn (studentId : jsnum) (timestamp : string)
| UpdReset (timestamp : string)
| UpdImport (studentsCount : nat) (timestamp : string).

Inductive PoolEvent : Type :=
| StudentDrawn (student : Student) (timestamp : string)
| DataUpdated (detail : DataUpdate)
| DataReset (timestamp : string) (totalStudents : nat)
| DataImported (studentsCount : nat) (timestamp : string).

Record StudentDataManager : Type := mkPool {
  students : list StudentObj;
  nextRef : ref;
  emitted : list PoolEvent
}.

Definition defaultStudentCount : nat := 49.

(** [generateRarity], on the value [Math.random()] returned. *)
Definition generateRarity (random : float) : string :=
  if PrimFloat.ltb random 0.01%float then "SR"
  else if PrimFloat.ltb random 0.10%float then "R"
  else "N".

Definition getStudentAvatar (name : string) : string :=
  "./images/" +:+ name +:+ ".jpg".

Definition dicebear (seed : string) : string :=
  "https://api.dicebear.com/7.x/avataaars/svg?seed=" +:+ seed.

(** [this.students.push(s)] for a fresh object [s]. *)
Definition push (s : Student) (p : StudentDataManager) : StudentDataManager :=
  mkPool (students p ++ [(nextRef p, s)]) (S (nextRef p)) (emitted p).

(** [this.studentNames]. *)
Definition studentNames : list string :=
  ["丁俊博"; "丁宇哲"; "丁旭尧"; "严晨瑞"; "刘子轩"; "刘易涵"; "刘舒雅";
   "吴岳阳"; "喻言"; "孙成梦"; "张恒溢"; "张烨琪"; "彭特"; "徐仁予";
   "徐天佑"; "徐嫣然"; "方梓晨"; "方瑜博"; "方警妤"; "方诗熳"; "曾彦宇";
   "李东霖"; "李妙言"; "李宇涵"; "李诗璇"; "李鑫悦"; "李雨滋"; "杨果";
   "沈文轩"; "熊梓嫣"; "王俊杰"; "王津瑜"; "王润邦"; "纪怀瑾"; "罗昕怡";
   "罗昕玥"; "肖旭东"; "胡楚昀"; "胡诗雨"; "蒋铭"; "蔡国斌"; "许锦程";
   "谢雄涛"; "谭钰泷"; "陈泽扬"; "陈浩东"; "高夕乐"; "高语"; "龚泓菘"].

(** The student [initializeDefaultData] builds at position [i], [random i]
    being the value [Math.random()] returns for it. *)
Definition defaultStudent (random : nat → float) (i : nat) : Student :=
  let name := string_or (studentNames !! i) ("同学" +:+ pretty (i + 1)%nat) in
  mkStudent (Finite (Z.of_nat i + 1)) name (getStudentAvatar name)
            (generateRarity (random i)) false None.

Definition initializeDefaultData (random : nat → float)
    (p : StudentDataManager) : StudentDataManager :=
  mkPool (imap (λ i s, ((nextRef p + i)%nat, s))
            (defaultStudent random <$> seq 0 defaultStudentCount))
         (nextRef p + defaultStudentCount)%nat
         (emitted p).

(** [new StudentDataManager()]. *)
Definition newStudentDataManager (random : nat → float)
    : StudentDataManager :=
  initializeDefaultData random (mkPool [] 0%nat []).

Definition getAllStudents (p : StudentDataManager) : list StudentObj :=
  students p.

Definition getStudentById (i : jsnum) (p : StudentDataManager)
    : option StudentObj :=
  snd <$> list_find (λ o, objId o = i) (students p).

Definition getAvailableStudents (p : StudentDataManager) : list StudentObj :=
  filter (λ o, ¬ isDrawn (snd o)) (students p).

Definition getDrawnStudents (p : StudentDataManager) : list StudentObj :=
  filter (λ o, isDrawn (snd o)) (students p).

(** [markStudentAsDrawn(id)]: the object [getStudentById] returns is the
    first one of the array with that id, and it is mutated in place. *)
Definition markStudentAsDrawn (now : string) (i : jsnum)
    (p : StudentDataManager) : bool * StudentDataManager :=
  match list_find (λ o, objId o = i) (students p) with
  | Some (k, (r, s)) =>
      if isDrawn s then (false, p)
      else
        let s' := setDrawn now s in
        (true,
         mkPool (<[k := (r, s')]> (students p)) (nextRef p)
                (emitted p ++ [StudentDrawn s' now;
                               DataUpdated (UpdStudentDrawn i now)]))
  | None => (false, p)
  end.

Definition resetAllStudents (clock : nat → string) (p : StudentDataManager)
    : StudentDataManager :=
  mkPool ((λ o, (fst o, clearDrawn (snd o))) <$> students p) (nextRef p)
         (emitted p ++ [DataReset (clock 0%nat) (length (students p));
                        DataUpdated (UpdReset (clock 1%nat))]).

(** [addStudent(name, avatar = null)]; returns the new object.  The seed
    of the default avatar is the text of the new id: its decimal digits,
    which is how an integer up to 2^53 in magnitude prints. *)
Definition addStudent (random : float) (name : string) (avatar : option string)
    (p : StudentDataManager) : StudentObj * StudentDataManager :=
  let newId := jsnum_succ (Math_max (objId <$> students p)) in
  let seed := match newId with
              | NegInfinity => "-Infinity"
              | Finite z => pretty z
              end in
  let newStudent :=
    mkStudent newId name (string_or avatar (dicebear seed))
              (generateRarity random) false None in
  ((nextRef p, newStudent), push newStudent p).

Definition removeStudent (i : jsnum) (p : StudentDataManager)
    : bool * StudentDataManager :=
  match list_find (λ o, objId o = i) (students p) with
  | Some (k, _) => (true, mkPool (delete k (students p)) (nextRef p) (emitted p))
  | None => (false, p)
  end.

Definition updateStudent (i : jsnum) (updates : Updates)
    (p : StudentDataManager) : bool * StudentDataManager :=
  match list_find (λ o, objId o = i) (students p) with
  | Some (k, (r, s)) =>
      (true, mkPool (<[k := (r, assign s updates)]> (students p)) (nextRef p)
                    (emitted p))
  | None => (false, p)
  end.

(** The student [importStudents] builds from [data] at position [index]. *)
Definition importedStudent (random : nat → float) (index : nat)
    (data : StudentData) : Student :=
  let n := pretty (index + 1)%nat in
  mkStudent
    (match data_id data with
     | Some x => if jsnum_truthy x then x else Finite (Z.of_nat index + 1)
     | None => Finite (Z.of_nat index + 1)
     end)
    (string_or (data_name data) ("学生" +:+ n +:+ "号"))
    (string_or (data_avatar data) (dicebear n))
    (match data_rarity data with
     | Some x => if String.eqb x "" then generateRarity (random index) else x
     | None => generateRarity (random index)
     end)
    false None.

(** The [forEach] of [importStudents] from position [index] on: [false]
    when reading a field of an element throws, with the array as the
    elements before it left it. *)
Fixpoint importEach (random : nat → float) (index : nat) (items : list Item)
    (p : StudentDataManager) : bool * StudentDataManager :=
  match items with
  | [] => (true, p)
  | Nullish :: _ => (false, p)
  | Obj data :: rest =>
      importEach random (S index) rest
        (push (importedStudent random index data) p)
  end.

(** [importStudents(studentsData)]: every throw inside is caught and turned
    into the result [false]. *)
Definition importStudents (random : nat → float) (clock : nat → string)
    (studentsData : Payload) (p : StudentDataManager)
    : bool * StudentDataManager :=
  match studentsData with
  | NotAnArray => (false, p)
  | Array items =>
      match importEach random 0 items (mkPool [] (nextRef p) (emitted p)) with
      | (true, p') =>
          (true,
           mkPool (students p') (nextRef p')
                  (emitted p' ++
                     [DataImported (length (students p')) (clock 0%nat);
                      DataUpdated (UpdImport (length (students p'))
                                             (clock 1%nat))]))
      | (false, p') => (false, p')
      end
  end.

Definition exportStudents (p : StudentDataManager) : list StudentData :=
  (λ o, let s := snd o in
        mkData (Some (id s)) (Some (name s)) (Some (avatar s))
               (Some (rarity s))) <$> students p.

(** The ids of the roster, in array order. *)
Definition ids (p : StudentDataManager) : list jsnum :=
  objId <$> students p.

(** The roster as values, identities forgotten. *)
Definition roster (p : StudentDataManager) : list Student :=
  snd <$> students p.

(** ** CardDrawEngine *)

(** [this.drawModes]: ['random'], ['weighted'], ['sequential']. *)
Inductive DrawMode : Type :=
| RANDOM
| WEIGHTED
| SEQUENTIAL.

Record DrawRecord : Type := mkRecord {
  student : ref;
  timestamp : string;
  mode : DrawMode;
  remainingCount : Z
}.

(** What [drawCard] throws: [Busy] is [Error('正在抽卡中，请稍候...')],
    [ExhaustedPool] is [Error('没有可抽取的卡片了！')], and [TypeError] is
    what reading [selectedStudent.id] throws when the selection returned
    [undefined]. *)
Inductive DrawError : Type :=
| Busy
| ExhaustedPool
| TypeError.

Inductive EngineEvent : Type :=
| DrawStart (availableCount : nat)
| DrawComplete (selected : ref) (drawRecord : DrawRecord) (remaining : Z)
| DrawErrorEvent (error : DrawError)
| ResetComplete (totalStudents : nat).

Record CardDrawEngine : Type := mkEngine {
  studentDataManager : StudentDataManager;
  drawHistory : list DrawRecord;
  isDrawing : bool;
  currentMode : DrawMode;
  rarityWeights : gmap string float;
  notified : list EngineEvent
}.

(** The weights the constructor installs. *)
Definition defaultRarityWeights : gmap string float :=
  <["N" := 1%float]> (<["R" := 0.5%float]> (<["SR" := 0.1%float]> ∅)).

(** [new CardDrawEngine(studentDataManager)]. *)
Definition newCardDrawEngine (p : StudentDataManager) : CardDrawEngine :=
  mkEngine p [] false RANDOM defaultRarityWeights [].

Definition emit (ev : EngineEvent) (e : CardDrawEngine) : CardDrawEngine :=
  mkEngine (studentDataManager e) (drawHistory e) (isDrawing e) (currentMode e)
           (rarityWeights e) (notified e ++ [ev]).

Definition setIsDrawing (b : bool) (e : CardDrawEngine) : CardDrawEngine :=
  mkEngine (studentDataManager e) (drawHistory e) b (currentMode e)
           (rarityWeights e) (notified e).

Definition setPool (p : StudentDataManager) (e : CardDrawEngine)
    : CardDrawEngine :=
  mkEngine p (drawHistory e) (isDrawing e) (currentMode e) (rarityWeights e)
           (notified e).

Definition setHistory (h : list DrawRecord) (e : CardDrawEngine)
    : CardDrawEngine :=
  mkEngine (studentDataManager e) h (isDrawing e) (currentMode e)
           (rarityWeights e) (notified e).

(** [randomDraw], on the value [Math.random()] returned. *)
Definition randomDraw (random : float) (availableStudents : list StudentObj)
    : option StudentObj :=
  array_get availableStudents
    (Math_floor (random * float_of_nat (length availableStudents))).

(** The names under which every object reads a property of
    [Object.prototype]: a function, or the prototype itself for
    ['__proto__']. *)
Definition objectPrototypeKeys : list string :=
  ["constructor"; "hasOwnProperty"; "isPrototypeOf"; "propertyIsEnumerable";
   "toLocaleString"; "toString"; "valueOf"; "__proto__";
   "__defineGetter__"; "__defineSetter__"; "__lookupGetter__";
   "__lookupSetter__"].

(** What is read as a weight: a number, or the property the weights
    object inherits under the name [key], which is truthy and not a
    number. *)
Inductive Weight : Type :=
| Num (w : float)
| Inherited (key : string).

(** [this.rarityWeights[student.rarity] || 1]: the weights object is a
    plain object, so a rarity it has no own property for is looked up in
    [Object.prototype]. *)
Definition weightOf (weights : gmap string float) (s : Student) : Weight :=
  match weights !! rarity s with
  | Some w => if float_truthy w then Num w else Num 1%float
  | None =>
      if bool_decide (rarity s ∈ objectPrototypeKeys)
      then Inherited (rarity s) else Num 1%float
  end.

(** The accumulator of the [reduce] of [weightedDraw]: a number, or, from
    the first weight on that is not a number, a string ([+] concatenates
    the texts), which is the text of no number. *)
Inductive Sum : Type :=
| NumSum (x : float)
| StrSum.

(** [sum + weight]. *)
Definition Sum_add (sum : Sum) (weight : Weight) : Sum :=
  match sum, weight with
  | NumSum x, Num w => NumSum (x + w)
  | _, _ => StrSum
  end.

Definition totalWeight (weights : gmap string float)
    (availableStudents : list StudentObj) : Sum :=
  foldl (λ sum o, Sum_add sum (weightOf weights (snd o))) (NumSum 0%float)
        availableStudents.

(** [Math.random() * totalWeight]: [NaN] when the total is a string. *)
Definition scaleTo (totalWeight : Sum) (u : float) : float :=
  match totalWeight with
  | NumSum x => (u * x)%float
  | StrSum => nan
  end.

(** [random - weight]: [NaN] when the weight is not a number. *)
Definition subWeight (random : float) (weight : Weight) : float :=
  match weight with
  | Num w => (random - w)%float
  | Inherited _ => nan
  end.

(** The [for ... of] loop of [weightedDraw], entered with [random]:
    [None] when it ends without returning. *)
Fixpoint weightedLoop (weights : gmap string float) (random : float)
    (availableStudents : list StudentObj) : option StudentObj :=
  match availableStudents with
  | [] => None
  | o :: rest =>
      let random' := subWeight random (weightOf weights (snd o)) in
      if PrimFloat.leb random' 0%float then Some o
      else weightedLoop weights random' rest
  end.

(** [weightedDraw] from the loop on, [random] being
    [Math.random() * totalWeight]. *)
Definition weightedSelect (weights : gmap string float) (random : float)
    (availableStudents : list StudentObj) : option StudentObj :=
  match weightedLoop weights random availableStudents with
  | Some o => Some o
  | None => last availableStudents
  end.

(** [weightedDraw], on the value [u] that [Math.random()] returned. *)
Definition weightedDraw (weights : gmap string float) (u : float)
    (availableStudents : list StudentObj) : option StudentObj :=
  weightedSelect weights
    (scaleTo (totalWeight weights availableStudents) u) availableStudents.

(** [sort((a, b) => a.id - b.id)]: the sort is stable, so its result is
    that of inserting each element before the first one it must precede. *)
Fixpoint insertById (o : StudentObj) (sorted : list StudentObj)
    : list StudentObj :=
  match sorted with
  | [] => [o]
  | o' :: rest =>
      if jsnum_sub_pos (objId o) (objId o') then o' :: insertById o rest
      else o :: sorted
  end.

Definition sortById (xs : list StudentObj) : list StudentObj :=
  foldr insertById [] xs.

Definition sequentialDraw (availableStudents : list StudentObj)
    : option StudentObj :=
  head (sortById availableStudents).

(** What one call of [drawCard] reads from outside: the value of
    [Math.random()] in the selection, and the two timestamps. *)
Record DrawEnv : Type := mkEnv {
  random : float;
  markTime : string;
  recordTime : string
}.

(** The [switch] on [this.currentMode]. *)
Definition selectStudent (e : CardDrawEngine) (u : float)
    (availableStudents : list StudentObj) : option StudentObj :=
  match currentMode e with
  | WEIGHTED => weightedDraw (rarityWeights e) u availableStudents
  | SEQUENTIAL => sequentialDraw availableStudents
  | RANDOM => randomDraw u availableStudents
  end.

(** The locals of [drawCard] that are live across its [await]. *)
Record Pending : Type := mkPending {
  selectedStudent : ref;
  drawRecord : DrawRecord;
  remaining : Z
}.

(** [drawCard] up to its [await]: either it has thrown (the promise is
    rejected), or it is suspended in [simulateDrawDelay]. *)
Definition drawCard_sync (env : DrawEnv) (e : CardDrawEngine)
    : (DrawError + Pending) * CardDrawEngine :=
  if isDrawing e then (inl Busy, e)
  else
    let availableStudents := getAvailableStudents (studentDataManager e) in
    if (length availableStudents =? 0)%nat then
      (inl ExhaustedPool, emit (DrawErrorEvent ExhaustedPool) e)
    else
      let e1 := emit (DrawStart (length availableStudents))
                     (setIsDrawing true e) in
      match selectStudent e1 (random env) availableStudents with
      | None =>
          (inl TypeError,
           setIsDrawing false (emit (DrawErrorEvent TypeError) e1))
      | Some (r, s) =>
          let p' := snd (markStudentAsDrawn (markTime env) (id s)
                           (studentDataManager e1)) in
          let remaining := Z.of_nat (length availableStudents) - 1 in
          let drawRecord :=
            mkRecord r (recordTime env) (currentMode e1) remaining in
          (inr (mkPending r drawRecord remaining),
           setHistory (drawHistory e1 ++ [drawRecord]) (setPool p' e1))
      end.

(** The result [drawCard] resolves to: [{ success: true, student,
    drawRecord, remainingCount }]. *)
Record DrawResult : Type := mkResult {
  success : bool;
  res_student : ref;
  res_drawRecord : DrawRecord;
  res_remainingCount : Z
}.

(** [drawCard] from its [await] on, [finally] included. *)
Definition drawCard_resume (k : Pending) (e : CardDrawEngine)
    : DrawResult * CardDrawEngine :=
  (mkResult true (selectedStudent k) (drawRecord k) (remaining k),
   setIsDrawing false
     (emit (DrawComplete (selectedStudent k) (drawRecord k) (remaining k)) e)).

(** A call of [drawCard] that is awaited with nothing run in between. *)
Definition drawCard (env : DrawEnv) (e : CardDrawEngine)
    : (DrawError + DrawResult) * CardDrawEngine :=
  match drawCard_sync env e with
  | (inl err, e') => (inl err, e')
  | (inr k, e') =>
      let (res, e'') := drawCard_resume k e' in (inr res, e'')
  end.

Definition reset (clock : nat → string) (e : CardDrawEngine)
    : CardDrawEngine :=
  let p' := resetAllStudents clock (studentDataManager e) in
  emit (ResetComplete (length (getAllStudents p')))
       (setIsDrawing false (setHistory [] (setPool p' e))).

(** [setDrawMode(mode)]: [None] when it throws. *)
Definition setDrawMode (mode : string) (e : CardDrawEngine)
    : option CardDrawEngine :=
  let set m := mkEngine (studentDataManager e) (drawHistory e) (isDrawing e) m
                        (rarityWeights e) (notified e) in
  if String.eqb mode "random" then Some (set RANDOM)
  else if String.eqb mode "weighted" then Some (set WEIGHTED)
  else if String.eqb mode "sequential" then Some (set SEQUENTIAL)
  else None.

(** [{ ...this.rarityWeights, ...weights }]. *)
Definition setRarityWeights (weights : gmap string float) (e : CardDrawEngine)
    : CardDrawEngine :=
  mkEngine (studentDataManager e) (drawHistory e) (isDrawing e) (currentMode e)
           (weights ∪ rarityWeights e) (notified e).

(** [getDrawHistory(limit = null)]: a limit of [0] is falsy. *)
Definition getDrawHistory (limit : option nat) (e : CardDrawEngine)
    : list DrawRecord :=
  let history := rev (drawHistory e) in
  match limit with
  | Some (S n) => take (S n) history
  | _ => history
  end.

(** Reading the fields of an object of the roster through a reference. *)
Definition deref (p : StudentDataManager) (r : ref) : option Student :=
  snd <$> (snd <$> list_find (λ o, fst o = r) (students p)).

(** Successive awaited calls of [drawCard]. *)
Definition drawCards (envs : list DrawEnv) (e : CardDrawEngine)
    : CardDrawEngine :=
  foldl (λ e env, snd (drawCard env e)) e envs.

(** The operations on the roster and on the engine, with what each reads
    from outside. *)
Inductive Op : Type :=
| OpDraw (env : DrawEnv)
| OpReset (clock : nat → string)
| OpAdd (random : float) (name : string) (avatar : option string)
| OpRemove (i : jsnum)
| OpUpdate (i : jsnum) (updates : Updates)
| OpMarkDrawn (now : string) (i : jsnum)
| OpImport (random : nat → float) (clock : nat → string)
    (studentsData : Payload)
| OpSetDrawMode (mode : string)
| OpSetRarityWeights (weights : gmap string float).

Definition onPool (f : StudentDataManager → StudentDataManager)
    (e : CardDrawEngine) : CardDrawEngine :=
  setPool (f (studentDataManager e)) e.

Definition step (e : CardDrawEngine) (op : Op) : CardDrawEngine :=
  match op with
  | OpDraw env => snd (drawCard env e)
  | OpReset clock => reset clock e
  | OpAdd random name avatar => onPool (λ p, snd (addStudent random name avatar p)) e
  | OpRemove i => onPool (λ p, snd (removeStudent i p)) e
  | OpUpdate i updates => onPool (λ p, snd (updateStudent i updates p)) e
  | OpMarkDrawn now i => onPool (λ p, snd (markStudentAsDrawn now i p)) e
  | OpImport random clock studentsData =>
      onPool (λ p, snd (importStudents random clock studentsData p)) e
  | OpSetDrawMode mode => default e (setDrawMode mode e)
  | OpSetRarityWeights weights => setRarityWeights weights e
  end.

Definition run (ops : list Op) (e : CardDrawEngine) : CardDrawEngine :=
  foldl step e ops.

(** ** StudentDataManager: [validateData] *)

(** An entry of [issues]: ['发现重复ID: ...'] with the ids it lists, or
    ['学生ID ... 缺少必要信息'] with the id it names. *)
Inductive Issue : Type :=
| DuplicateIds (duplicateIds : list jsnum)
| MissingInfo (studentId : jsnum).

Record Validation : Type := mkValidation {
  isValid : bool;
  issues : list Issue
}.

(** [xs.indexOf(x)], [None] for -1. *)
Definition indexOf (x : jsnum) (xs : list jsnum) : option nat :=
  fst <$> list_find (λ y, y = x) xs.

(** [ids.filter((id, index) => ids.indexOf(id) !== index)]. *)
Definition duplicateIds (xs : list jsnum) : list jsnum :=
  snd <$> filter (λ ix, indexOf (snd ix) xs ≠ Some (fst ix))
                 (imap (λ index x, (index, x)) xs).

Definition validateData (p : StudentDataManager) : Validation :=
  let dups := duplicateIds (ids p) in
  let issues1 := if (0 <? length dups)%nat then [DuplicateIds dups] else [] in
  let issues2 :=
    (λ s, MissingInfo (id s)) <$>
      filter (λ s, name s = "" ∨ avatar s = "") (roster p) in
  let issues := issues1 ++ issues2 in
  mkValidation (length issues =? 0)%nat issues.

(** ** CardDrawEngine: mode, [canDraw], [previewNextDraw] *)

(** The value of [this.drawModes] a mode stands for. *)
Definition modeName (m : DrawMode) : string :=
  match m with
  | RANDOM => "random"
  | WEIGHTED => "weighted"
  | SEQUENTIAL => "sequential"
  end.

Definition getCurrentMode (e : CardDrawEngine) : string :=
  modeName (currentMode e).

(** What [canDraw()] returns; [reason] is [null], ['正在抽卡中'] or
    ['没有可抽取的卡片']. *)
Record CanDraw : Type := mkCanDraw {
  canDraw_canDraw : bool;
  canDraw_isDrawing : bool;
  canDraw_availableCount : nat;
  canDraw_reason : option string
}.

Definition canDraw (e : CardDrawEngine) : CanDraw :=
  let availableStudents := getAvailableStudents (studentDataManager e) in
  mkCanDraw
    (negb (isDrawing e) && (0 <? length availableStudents)%nat)
    (isDrawing e)
    (length availableStudents)
    (if isDrawing e then Some "正在抽卡中"
     else if (length availableStudents =? 0)%nat then Some "没有可抽取的卡片"
     else None).

(** [weight - weight']: [NaN] when one of them is not a number. *)
Definition Weight_sub (weight weight' : Weight) : float :=
  match weight, weight' with
  | Num w, Num w' => (w - w')%float
  | _, _ => nan
  end.

(** [sort((a, b) => (w[b.rarity] || 1) - (w[a.rarity] || 1))]: numbers
    read through [|| 1] are never [NaN], so on them the comparator is
    consistent and the stable sort is that of inserting each element
    before the first one it must precede; [b] goes first when the
    difference is positive.  With a weight that is not a number the
    differences are [NaN], which [sort] reads as 0; the order is then the
    implementation's, and nothing is stated about it. *)
Fixpoint insertByWeight (weights : gmap string float) (o : StudentObj)
    (sorted : list StudentObj) : list StudentObj :=
  match sorted with
  | [] => [o]
  | o' :: rest =>
      if PrimFloat.ltb 0%float
           (Weight_sub (weightOf weights (snd o')) (weightOf weights (snd o)))
      then o' :: insertByWeight weights o rest
      else o :: sorted
  end.

Definition sortByWeight (weights : gmap string float)
    (xs : list StudentObj) : list StudentObj :=
  foldr (insertByWeight weights) [] xs.

Definition previewNextDraw (e : CardDrawEngine) : list StudentObj :=
  let availableStudents := getAvailableStudents (studentDataManager e) in
  if (length availableStudents =? 0)%nat then []
  else
    match currentMode e with
    | SEQUENTIAL => option_list (head (sortById availableStudents))
    | WEIGHTED => take 5 (sortByWeight (rarityWeights e) availableStudents)
    | RANDOM => availableStudents
    end.

(** ** The properties stated about the model *)

(** The ids of the roster are unique positive integers. *)
Definition uniquePositive (p : StudentDataManager) : Prop :=
  NoDup (ids p) ∧ Forall jsnum_positive (ids p).

(** Every field [exportStudents] writes is one [x || d] keeps on import. *)
Definition truthyFields (s : Student) : Prop :=
  jsnum_truthy (id s) = true ∧ name s ≠ "" ∧ avatar s ≠ "" ∧ rarity s ≠ "".

(** The references of the roster, in array order. *)
Definition refs (p : StudentDataManager) : list ref := fst <$> students p.

(** The object [r] is in the roster and marked drawn. *)
Definition drawnRef (p : StudentDataManager) (r : ref) : Prop :=
  ∃ s, (r, s) ∈ students p ∧ isDrawn s = true.

(** The invariant behind the no-repeat property: objects and ids are
    distinct, no object is recorded twice, and every recorded object is
    marked drawn. *)
Definition noRepeat (e : CardDrawEngine) : Prop :=
  NoDup (refs (studentDataManager e)) ∧
  NoDup (ids (studentDataManager e)) ∧
  NoDup (student <$> drawHistory e) ∧
  Forall (λ rec, drawnRef (studentDataManager e) (student rec)) (drawHistory e).

(** Every reference of the roster is distinct and was allocated: the
    invariant of the representation of objects, kept by every operation
    (lemmas [wf_newStudentDataManager] and [wf_run]). *)
Definition wf (p : StudentDataManager) : Prop :=
  NoDup (refs p) ∧ Forall (λ r, (r < nextRef p)%nat) (refs p).

(** [record.student.id] for each record of the history, oldest first. *)
Definition drawOrder (e : CardDrawEngine) : list (option jsnum) :=
  (λ rec, id <$> deref (studentDataManager e) (student rec)) <$> drawHistory e.

(** *** The weighted policy in the words of the specification *)

(** The weight configured for the rarity of [s]; 1 where none is. *)
Definition configuredWeight (weights : gmap string float) (s : Student)
    : float :=
  default 1%float (weights !! rarity s).

(** [W], the sum of the configured weights over [S]. *)
Definition specTotalWeight (weights : gmap string float)
    (S : list StudentObj) : float :=
  foldl (λ sum o, (sum + configuredWeight weights (snd o))%float) 0%float S.

(** The successive values of [R] along the walk: after subtracting the
    weight of the first entity, of the first two, and so on. *)
Fixpoint remainders (weights : gmap string float) (R : float)
    (S : list StudentObj) : list float :=
  match S with
  | [] => []
  | o :: rest =>
      let R' := (R - configuredWeight weights (snd o))%float in
      R' :: remainders weights R' rest
  end.

(** The first entity at which [R <= 0]; the last entity of [S] when there
    is none. *)
Definition specWeightedSelect (weights : gmap string float) (R : float)
    (S : list StudentObj) : option StudentObj :=
  match list_find (λ x, PrimFloat.leb (snd x) 0%float = true)
                  (zip S (remainders weights R S)) with
  | Some (_, (o, _)) => Some o
  | None => last S
  end.

(** No rarity met in [S] has a configured weight that [w || 1] discards
    (0, -0 or NaN). *)
Definition noFalsyWeight (weights : gmap string float)
    (S : list StudentObj) : Prop :=
  ∀ o w, o ∈ S → weights !! rarity (snd o) = Some w → float_truthy w = true.

(** The weights object has no own property for the rarity of [s], and
    inherits one: what is read as the weight of [s] is not a number. *)
Definition inheritsWeight (weights : gmap string float) (s : Student)
    : Prop :=
  weights !! rarity s = None ∧ rarity s ∈ objectPrototypeKeys.

(** No rarity met in [S] is read from [Object.prototype]. *)
Definition noInheritedWeight (weights : gmap string float)
    (S : list StudentObj) : Prop :=
  ∀ o, o ∈ S → weights !! rarity (snd o) = None →
       rarity (snd o) ∉ objectPrototypeKeys.

(** ** Concrete rosters and engines for the examples *)

Definition emptyPool : StudentDataManager := mkPool [] 0%nat [].

Definition half : nat → float := λ _, 0.5%float.

Definition clock0 : nat → string := λ _, "t0".

(** [{ id: i, name: name, avatar: 'a.png', rarity: 'N' }]. *)
Definition entry (i : Z) (name : string) : Item :=
  Obj (mkData (Some (Finite i)) (Some name) (Some "a.png") (Some "N")).

(** [data] with its id replaced by [i]. *)
Definition withId (i : Z) (data : StudentData) : Item :=
  Obj (mkData (Some (Finite i)) (data_name data) (data_avatar data)
              (data_rarity data)).

(** A roster of one student. *)
Definition solo : StudentDataManager :=
  snd (importStudents half clock0 (Array [entry 1 "a"]) emptyPool).

(** A roster of two students with the same id, as import accepts it. *)
Definition twins : StudentDataManager :=
  snd (importStudents half clock0 (Array [entry 1 "a"; entry 1 "b"]) emptyPool).

(** The roster with ids 5, 3, 8, 1. *)
Definition quartet : StudentDataManager :=
  snd (importStudents half clock0
         (Array [entry 5 "e"; entry 3 "c"; entry 8 "h"; entry 1 "a"]) emptyPool).

(** [solo] after its student was drawn. *)
Definition drawnSolo : StudentDataManager :=
  snd (markStudentAsDrawn "t1" (Finite 1) solo).

(** [solo] after [addStudent('')] and
    [updateStudent(1, { avatar: '' })]. *)
Definition blanks : StudentDataManager :=
  snd (updateStudent (Finite 1)
         (mkUpdates None None (Some "") None None None)
         (snd (addStudent 0.5%float "" None solo))).

(** An idle engine in sequential mode with an empty history. *)
Definition sequential (p : StudentDataManager) : CardDrawEngine :=
  mkEngine p [] false SEQUENTIAL defaultRarityWeights [].

Definition env0 : DrawEnv := mkEnv 0.25%float "t1" "t2".

(** The weights after [setRarityWeights({ SR: 0 })]. *)
Definition zeroSR : gmap string float :=
  rarityWeights
    (setRarityWeights {["SR" := 0%float]} (newCardDrawEngine emptyPool)).

(** An available snapshot: a super-rare student, then an ordinary one. *)
Definition srFirst : list StudentObj :=
  [(0%nat, mkStudent (Finite 1) "a" "a.png" "SR" false None);
   (1%nat, mkStudent (Finite 2) "b" "b.png" "N" false None)].

(** An available snapshot: a student whose rarity is ['constructor'], then
    an ordinary one. *)
Definition ctorFirst : list StudentObj :=
  [(0%nat, mkStudent (Finite 1) "a" "a.png" "constructor" false None);
   (1%nat, mkStudent (Finite 2) "b" "b.png" "N" false None)].

(** A roster of one student whose id is 2^53. *)
Definition huge : StudentDataManager :=
  snd (importStudents half clock0 (Array [entry (2 ^ 53) "a"]) emptyPool).

(** Each number is below every later one. *)
Definition ascending (xs : list jsnum) : Prop :=
  ∀ i j x y, (i < j)%nat → xs !! i = Some x → xs !! j = Some y → jsnum_lt x y.

(** The invariant of an idle engine drawing in sequential mode: the ids
    recorded so far are [order], they ascend, and each is below the id of
    every student still available. *)
Definition sequentialInv (e : CardDrawEngine) (order : list jsnum) : Prop :=
  isDrawing e = false ∧ currentMode e = SEQUENTIAL ∧
  NoDup (ids (studentDataManager e)) ∧ NoDup (refs (studentDataManager e)) ∧
  Forall2 (λ rec x, ∃ s, (student rec, s) ∈ students (studentDataManager e) ∧
                         id s = x)
          (drawHistory e) order ∧
  ascending order ∧
  ∀ x o, x ∈ order → o ∈ getAvailableStudents (studentDataManager e) →
         jsnum_lt x (objId o).

(** The operation is a [reset]. *)
Definition isReset (op : Op) : bool :=
  match op with
  | OpReset _ => true
  | _ => false
  end.

(** * Properties of the numbers used as ids *)

Create HintDb jsnum discriminated.

Lemma jsnum_le_refl x : jsnum_le x x.
Proof. destruct x; simpl; [done|lia]. Qed.

Lemma jsnum_le_trans x y z : jsnum_le x y → jsnum_le y z → jsnum_le x z.
Proof. destruct x, y, z; simpl; try tauto; lia. Qed.

Lemma jsnum_lt_irrefl x : ¬ jsnum_lt x x.
Proof. destruct x; simpl; [tauto|lia]. Qed.

(** Up to 2^53 in magnitude an integer is a binary64 number. *)
Lemma round_binary64_exact z : - 2 ^ 53 ≤ z ≤ 2 ^ 53 → round_binary64 z = z.
Proof.
  intros Hz. unfold round_binary64.
  destruct (Z.ltb_spec (Z.abs z) (2 ^ 53)) as [|Hge]; [done|].
  assert (z = 2 ^ 53 ∨ z = - 2 ^ 53) as [->| ->] by lia; reflexivity.
Qed.

Lemma jsnum_succ_exact z :
  - 2 ^ 53 ≤ z < 2 ^ 53 → jsnum_succ (Finite z) = Finite (z + 1).
Proof. intros Hz. simpl. by rewrite round_binary64_exact by lia. Qed.

(** At 2^53 the sum [x + 1] is rounded back to [x]. *)
Lemma jsnum_succ_2_53 : jsnum_succ (Finite (2 ^ 53)) = Finite (2 ^ 53).
Proof. reflexivity. Qed.

Lemma jsnum_lt_succ x y :
  - 2 ^ 53 ≤ y < 2 ^ 53 →
  jsnum_le x (Finite y) → jsnum_lt x (jsnum_succ (Finite y)).
Proof.
  intros Hy. rewrite jsnum_succ_exact by done. destruct x; simpl; [done|lia].
Qed.

(** The comparator of [sort] against the order of the ids. *)
Lemma jsnum_sub_pos_true a b : jsnum_sub_pos a b = true → jsnum_le b a.
Proof. destruct a, b; simpl; try done. intros ?%Z.ltb_lt. lia. Qed.

Lemma jsnum_sub_pos_false a b : jsnum_sub_pos a b = false → jsnum_le a b.
Proof. destruct a, b; simpl; try done. intros ?%Z.ltb_ge. lia. Qed.

#[global] Hint Resolve jsnum_le_refl jsnum_sub_pos_true jsnum_sub_pos_false
  : jsnum.

Lemma Math_max_ge (xs : list jsnum) x : x ∈ xs → jsnum_le x (Math_max xs).
Proof.
  induction xs as [|y ys IH]; [by intros ?%elem_of_nil|].
  intros [->|Hin]%elem_of_cons; simpl.
  - destruct y as [|a], (Math_max ys) as [|b]; simpl; try done; lia.
  - specialize (IH Hin).
    destruct x as [|c], y as [|a], (Math_max ys) as [|b];
      simpl in *; try done; lia.
Qed.

Lemma Math_max_positive (xs : list jsnum) :
  xs ≠ [] → Forall jsnum_positive xs → ∃ m, Math_max xs = Finite m ∧ 0 < m.
Proof.
  induction xs as [|x xs IH]; [done|]. intros _ [Hx Hxs]%Forall_cons.
  destruct x as [|a]; [done|]. simpl in Hx. simpl.
  destruct xs as [|y ys].
  - simpl. eauto.
  - destruct IH as (m & -> & Hm); [done..|]. simpl.
    exists (Z.max a m). split; [done|lia].
Qed.

(** * Properties of StudentDataManager *)

(** ** The drawn and the available students *)

Lemma partition_identity (p : StudentDataManager) :
  (length (getDrawnStudents p) + length (getAvailableStudents p))%nat
  = length (getAllStudents p).
Proof.
  unfold getDrawnStudents, getAvailableStudents, getAllStudents.
  rewrite <- length_app.
  apply Permutation_length, (filter_app_complement (λ o, isDrawn (snd o))).
Qed.

Lemma getAvailableStudents_elem_of p r s :
  (r, s) ∈ getAvailableStudents p ↔ (r, s) ∈ students p ∧ isDrawn s = false.
Proof.
  unfold getAvailableStudents. rewrite list_elem_of_filter. simpl.
  destruct (isDrawn s); simpl; intuition congruence.
Qed.

Lemma getDrawnStudents_resetAllStudents clock p :
  getDrawnStudents (resetAllStudents clock p) = [].
Proof.
  unfold getDrawnStudents, resetAllStudents. cbn [students].
  induction (students p) as [|o l IH]; [done|].
  rewrite fmap_cons, filter_cons. by rewrite decide_False by (simpl; tauto).
Qed.

(** ** What each mutation does to the ids *)

Section Ids.

Implicit Types (p : StudentDataManager) (i : jsnum) (now : string).

(** Rewriting an object in place without touching its id. *)
Lemma ids_insert_same (l : list StudentObj) k r s s' :
  l !! k = Some (r, s) → id s' = id s →
  objId <$> <[k := (r, s')]> l = objId <$> l.
Proof.
  intros Hk Hid. rewrite list_fmap_insert. apply list_insert_id.
  rewrite list_lookup_fmap, Hk. simpl. unfold objId. simpl. by rewrite Hid.
Qed.

Lemma ids_markStudentAsDrawn now i p :
  ids (snd (markStudentAsDrawn now i p)) = ids p.
Proof.
  unfold markStudentAsDrawn.
  destruct (list_find _ _) as [[k [r s]]|] eqn:E; [|done].
  destruct (isDrawn s); [done|]. simpl. unfold ids. simpl.
  apply list_find_Some in E as (Hk & _ & _).
  by apply ids_insert_same with s.
Qed.

Lemma ids_resetAllStudents clock p : ids (resetAllStudents clock p) = ids p.
Proof.
  unfold ids, resetAllStudents. simpl. rewrite <- list_fmap_compose.
  apply list_fmap_ext. by intros ? [r s].
Qed.

Lemma ids_removeStudent i p :
  ids (snd (removeStudent i p)) `sublist_of` ids p.
Proof.
  unfold removeStudent, ids.
  destruct (list_find _ _) as [[k o]|]; simpl; [|done].
  apply fmap_sublist, sublist_delete.
Qed.

Lemma ids_updateStudent i updates p k o :
  list_find (λ o, objId o = i) (students p) = Some (k, o) →
  ids (snd (updateStudent i updates p))
  = <[k := default (objId o) (upd_id updates)]> (ids p).
Proof.
  intros E. unfold updateStudent. rewrite E. destruct o as [r s]. simpl.
  unfold ids. simpl. by rewrite list_fmap_insert.
Qed.

Lemma addStudent_students random name avatar p :
  students (snd (addStudent random name avatar p))
  = students p ++ [fst (addStudent random name avatar p)].
Proof. done. Qed.

Lemma addStudent_id random name avatar p :
  objId (fst (addStudent random name avatar p))
  = jsnum_succ (Math_max (ids p)).
Proof. done. Qed.

Lemma addStudent_id_above random name avatar p m :
  Math_max (ids p) = Finite m → - 2 ^ 53 ≤ m < 2 ^ 53 →
  Forall (λ x, jsnum_lt x (objId (fst (addStudent random name avatar p))))
         (ids p).
Proof.
  intros Hm Hsafe. rewrite addStudent_id, Hm. apply Forall_forall.
  intros x Hx. apply jsnum_lt_succ; [done|]. rewrite <- Hm.
  by apply Math_max_ge.
Qed.

Lemma ids_newStudentDataManager random :
  ids (newStudentDataManager random)
  = (λ i : nat, Finite (Z.of_nat i + 1)) <$> seq 0 defaultStudentCount.
Proof.
  unfold ids, newStudentDataManager, initializeDefaultData. cbn [students].
  apply list_eq. intros i.
  rewrite !list_lookup_fmap, list_lookup_imap, list_lookup_fmap.
  by destruct (seq 0 defaultStudentCount !! i).
Qed.

End Ids.

(** ** Import *)

Section ImportStudents.

Variable random : nat → float.

(** The loop over records only: every one is pushed. *)
Lemma importEach_objs index datas p :
  importEach random index (Obj <$> datas) p
  = (true,
     mkPool (students p ++
               imap (λ j d, ((nextRef p + j)%nat,
                             importedStudent random (index + j) d)) datas)
            (nextRef p + length datas)%nat (emitted p)).
Proof.
  revert index p. induction datas as [|d ds IH]; intros index p; simpl.
  - rewrite app_nil_r, Nat.add_0_r. by destruct p.
  - rewrite IH. simpl. f_equal. f_equal.
    + rewrite <- app_assoc. simpl. rewrite !Nat.add_0_r. do 2 f_equal.
      apply imap_ext. intros j x _. simpl. do 2 f_equal; lia.
    + lia.
Qed.

(** The loop stops at the first [null], keeping what it pushed. *)
Lemma importEach_nullish index datas rest p :
  importEach random index ((Obj <$> datas) ++ Nullish :: rest) p
  = (false, snd (importEach random index (Obj <$> datas) p)).
Proof.
  revert index p.
  induction datas as [|d ds IH]; intros index p; simpl; [done|].
  by rewrite IH.
Qed.

Lemma roster_importStudents clock datas p :
  fst (importStudents random clock (Array (Obj <$> datas)) p) = true ∧
  roster (snd (importStudents random clock (Array (Obj <$> datas)) p))
  = imap (importedStudent random) datas.
Proof.
  unfold importStudents. rewrite importEach_objs. simpl. split; [done|].
  unfold roster. simpl. rewrite fmap_imap. apply imap_ext. by intros.
Qed.

Lemma ids_importStudents clock datas p :
  ids (snd (importStudents random clock (Array (Obj <$> datas)) p))
  = imap (λ index data, id (importedStudent random index data)) datas.
Proof.
  destruct (roster_importStudents clock datas p) as [_ H].
  transitivity
    (id <$> roster (snd (importStudents random clock
                           (Array (Obj <$> datas)) p))).
  { unfold ids, roster. by rewrite <- list_fmap_compose. }
  by rewrite H, fmap_imap.
Qed.

(** A payload that is not an array is refused before anything is
    touched. *)
Lemma importStudents_not_an_array clock p :
  importStudents random clock NotAnArray p = (false, p).
Proof. done. Qed.

(** An array with a [null] element is refused after the roster was
    replaced by the records before that element. *)
Lemma importStudents_nullish clock datas rest p :
  fst (importStudents random clock
         (Array ((Obj <$> datas) ++ Nullish :: rest)) p) = false ∧
  roster (snd (importStudents random clock
                 (Array ((Obj <$> datas) ++ Nullish :: rest)) p))
  = imap (importedStudent random) datas.
Proof.
  unfold importStudents. rewrite importEach_nullish, importEach_objs. simpl.
  split; [done|]. unfold roster. simpl. rewrite fmap_imap.
  apply imap_ext. by intros.
Qed.

Lemma string_or_truthy x d : x ≠ "" → string_or (Some x) d = x.
Proof. intros Hx. unfold string_or. by destruct (String.eqb_spec x ""). Qed.

(** Import gives back a student whose exported fields are all truthy. *)
Lemma importedStudent_export index s :
  truthyFields s →
  importedStudent random index
    (mkData (Some (id s)) (Some (name s)) (Some (avatar s)) (Some (rarity s)))
  = clearDrawn s.
Proof.
  intros (Hid & Hn & Ha & Hr). unfold importedStudent, clearDrawn.
  cbn [data_id data_name data_avatar data_rarity].
  rewrite Hid, !string_or_truthy by done.
  by destruct (String.eqb_spec (rarity s) "").
Qed.

End ImportStudents.

(** ** Unique positive ids are kept *)

Lemma uniquePositive_sublist p q :
  ids q `sublist_of` ids p → uniquePositive p → uniquePositive q.
Proof.
  intros Hsub [Hnd Hpos]. split.
  - by eapply sublist_NoDup.
  - rewrite Forall_forall in *. intros x Hx. apply Hpos.
    by eapply elem_of_sublist.
Qed.

Lemma uniquePositive_newStudentDataManager random :
  uniquePositive (newStudentDataManager random).
Proof.
  unfold uniquePositive. rewrite ids_newStudentDataManager. split.
  - apply NoDup_fmap_2; [|apply NoDup_seq]. intros a b [=]. lia.
  - apply Forall_fmap, Forall_forall. intros a _. simpl. lia.
Qed.

Lemma uniquePositive_markStudentAsDrawn now i p :
  uniquePositive p → uniquePositive (snd (markStudentAsDrawn now i p)).
Proof. unfold uniquePositive. by rewrite ids_markStudentAsDrawn. Qed.

Lemma uniquePositive_resetAllStudents clock p :
  uniquePositive p → uniquePositive (resetAllStudents clock p).
Proof. unfold uniquePositive. by rewrite ids_resetAllStudents. Qed.

Lemma uniquePositive_removeStudent i p :
  uniquePositive p → uniquePositive (snd (removeStudent i p)).
Proof. apply uniquePositive_sublist, ids_removeStudent. Qed.

Lemma uniquePositive_addStudent random name avatar p :
  students p ≠ [] → jsnum_lt (Math_max (ids p)) (Finite (2 ^ 53)) →
  uniquePositive p →
  uniquePositive (snd (addStudent random name avatar p)).
Proof.
  intros Hne Hsafe [Hnd Hpos].
  destruct (Math_max_positive (ids p)) as (m & Hm & Hm0); [|done|].
  { unfold ids. by destruct (students p). }
  rewrite Hm in Hsafe. simpl in Hsafe.
  pose proof (addStudent_id_above random name avatar p m Hm
                ltac:(lia)) as Habove.
  unfold uniquePositive, ids in *.
  rewrite addStudent_students, fmap_app. simpl.
  split.
  - apply NoDup_app. split; [done|]. split; [|apply NoDup_singleton].
    intros x Hx ->%list_elem_of_singleton.
    rewrite Forall_forall in Habove.
    by apply (jsnum_lt_irrefl _ (Habove _ Hx)).
  - apply Forall_app. split; [done|]. apply Forall_singleton.
    change (jsnum_positive (objId (fst (addStudent random name avatar p)))).
    rewrite addStudent_id. unfold ids. rewrite Hm.
    rewrite jsnum_succ_exact by lia. simpl. lia.
Qed.

(** ** References stay distinct *)

Section Refs.

Implicit Types (p : StudentDataManager) (i : jsnum).

Lemma wf_same_refs p q :
  refs q = refs p → nextRef q = nextRef p → wf p → wf q.
Proof. unfold wf. by intros -> ->. Qed.

Lemma refs_insert (l : list StudentObj) k r s s' :
  l !! k = Some (r, s) → fst <$> <[k := (r, s')]> l = fst <$> l.
Proof.
  intros Hk. rewrite list_fmap_insert. apply list_insert_id.
  by rewrite list_lookup_fmap, Hk.
Qed.

Lemma wf_push s p : wf p → wf (push s p).
Proof.
  intros [Hnd Hlt]. unfold wf, refs, push in *. cbn [students nextRef].
  rewrite fmap_app. simpl. split.
  - apply NoDup_app. split; [done|]. split; [|apply NoDup_singleton].
    intros r Hr ->%list_elem_of_singleton. rewrite Forall_forall in Hlt.
    specialize (Hlt _ Hr). lia.
  - apply Forall_app. split; [|apply Forall_singleton; lia].
    eapply Forall_impl; [exact Hlt|]. simpl. lia.
Qed.

Lemma wf_markStudentAsDrawn now i p :
  wf p → wf (snd (markStudentAsDrawn now i p)).
Proof.
  unfold markStudentAsDrawn.
  destruct (list_find _ _) as [[k [r s]]|] eqn:E; [|done].
  destruct (isDrawn s); [done|]. apply wf_same_refs; [|done].
  apply list_find_Some in E as (Hk & _). by eapply refs_insert.
Qed.

Lemma wf_updateStudent i updates p :
  wf p → wf (snd (updateStudent i updates p)).
Proof.
  unfold updateStudent.
  destruct (list_find _ _) as [[k [r s]]|] eqn:E; [|done].
  apply wf_same_refs; [|done].
  apply list_find_Some in E as (Hk & _). by eapply refs_insert.
Qed.

Lemma wf_resetAllStudents clock p : wf p → wf (resetAllStudents clock p).
Proof.
  apply wf_same_refs; [|done]. unfold refs, resetAllStudents. cbn [students].
  rewrite <- list_fmap_compose. by apply list_fmap_ext.
Qed.

Lemma wf_removeStudent i p : wf p → wf (snd (removeStudent i p)).
Proof.
  unfold removeStudent. destruct (list_find _ _) as [[k o]|]; [|done].
  intros [Hnd Hlt]. unfold wf, refs in *. cbn [snd students nextRef].
  assert (fst <$> delete k (students p) `sublist_of` fst <$> students p)
    as Hsub by apply fmap_sublist, sublist_delete.
  split; [by eapply sublist_NoDup|].
  rewrite Forall_forall in *. intros x Hx. apply Hlt.
  by eapply elem_of_sublist.
Qed.

Lemma wf_addStudent random name avatar p :
  wf p → wf (snd (addStudent random name avatar p)).
Proof. apply wf_push. Qed.

Lemma wf_importEach random index items p :
  wf p → wf (snd (importEach random index items p)).
Proof.
  revert index p.
  induction items as [|[d|] items IH]; intros index p Hp; simpl;
    [done| |done].
  apply IH. by apply wf_push.
Qed.

Lemma wf_importStudents random clock studentsData p :
  wf p → wf (snd (importStudents random clock studentsData p)).
Proof.
  intros Hp. destruct studentsData as [|items]; [done|]. unfold importStudents.
  pose proof (wf_importEach random 0 items
                (mkPool [] (nextRef p) (emitted p))) as H.
  destruct (importEach _ _ _ _) as [[] p']; apply H; split; constructor.
Qed.

Lemma wf_newStudentDataManager random : wf (newStudentDataManager random).
Proof.
  unfold wf, refs, newStudentDataManager, initializeDefaultData.
  cbn [students nextRef].
  assert (fst <$> imap (λ (i : nat) (s : Student), ((0 + i)%nat, s))
            (defaultStudent random <$> seq 0 defaultStudentCount)
          = seq 0 defaultStudentCount) as ->.
  { apply list_eq. intros i.
    rewrite list_lookup_fmap, list_lookup_imap, list_lookup_fmap.
    destruct (seq 0 defaultStudentCount !! i) as [j|] eqn:E; [|done].
    apply lookup_seq in E as [-> _]. done. }
  split; [apply NoDup_seq|]. apply Forall_forall. intros r Hr%elem_of_seq. lia.
Qed.

End Refs.

(** * Properties of CardDrawEngine *)

(** ** The selection returns one of the available students *)

Lemma array_get_elem_of {A} (xs : list A) i x :
  array_get xs i = Some x → x ∈ xs.
Proof.
  unfold array_get. destruct i as [z|]; [|done]. destruct (0 <=? z); [|done].
  apply list_elem_of_lookup_2.
Qed.

Lemma last_elem_of {A} (l : list A) x : last l = Some x → x ∈ l.
Proof. rewrite last_lookup. apply list_elem_of_lookup_2. Qed.

Lemma randomDraw_elem_of u S o : randomDraw u S = Some o → o ∈ S.
Proof. apply array_get_elem_of. Qed.

Lemma weightedLoop_elem_of weights R S o :
  weightedLoop weights R S = Some o → o ∈ S.
Proof.
  revert R. induction S as [|x S IH]; intros R; simpl; [done|].
  destruct (PrimFloat.leb _ _).
  - intros [= ->]. left.
  - intros H. right. eauto.
Qed.

Lemma weightedSelect_elem_of weights R S o :
  weightedSelect weights R S = Some o → o ∈ S.
Proof.
  unfold weightedSelect. destruct (weightedLoop weights R S) eqn:E.
  - intros [= <-]. by eapply weightedLoop_elem_of.
  - apply last_elem_of.
Qed.

Lemma weightedSelect_is_Some weights R S :
  S ≠ [] → is_Some (weightedSelect weights R S).
Proof.
  intros HS. unfold weightedSelect.
  destruct (weightedLoop weights R S); [eauto|].
  destruct S as [|x S]; [done|]. rewrite last_cons. destruct (last S); eauto.
Qed.

Lemma insertById_elem_of o sorted x :
  x ∈ insertById o sorted ↔ x = o ∨ x ∈ sorted.
Proof.
  induction sorted as [|y ys IH]; simpl.
  - rewrite list_elem_of_singleton, elem_of_nil. tauto.
  - destruct (jsnum_sub_pos _ _); rewrite !elem_of_cons; [rewrite IH|]; tauto.
Qed.

Lemma sortById_elem_of xs x : x ∈ sortById xs ↔ x ∈ xs.
Proof.
  induction xs as [|y ys IH]; simpl; [done|].
  rewrite insertById_elem_of, elem_of_cons, IH. done.
Qed.

(** The head of the sorted snapshot has the least id. *)
Lemma sortById_head xs :
  match sortById xs with
  | [] => xs = []
  | m :: _ => ∀ x, x ∈ xs → jsnum_le (objId m) (objId x)
  end.
Proof.
  induction xs as [|o xs IH]; simpl; [done|].
  destruct (sortById xs) as [|m rest]; simpl.
  - subst. intros x ->%list_elem_of_singleton. auto with jsnum.
  - destruct (jsnum_sub_pos (objId o) (objId m)) eqn:E.
    + intros x [->|Hx]%elem_of_cons; auto with jsnum.
    + intros x [->|Hx]%elem_of_cons; [auto with jsnum|].
      eapply jsnum_le_trans; [by apply jsnum_sub_pos_false|auto].
Qed.

Lemma sequentialDraw_min o S :
  ∃ m, sequentialDraw (o :: S) = Some m ∧ m ∈ o :: S ∧
       ∀ x, x ∈ o :: S → jsnum_le (objId m) (objId x).
Proof.
  unfold sequentialDraw. pose proof (sortById_head (o :: S)) as H.
  destruct (sortById (o :: S)) as [|m rest] eqn:E; [done|].
  exists m. split; [done|]. split; [|done].
  apply sortById_elem_of. rewrite E. left.
Qed.

Lemma sequentialDraw_elem_of S o : sequentialDraw S = Some o → o ∈ S.
Proof.
  unfold sequentialDraw. intros H. apply sortById_elem_of.
  destruct (sortById S); [done|]. injection H as ->. left.
Qed.

Lemma selectStudent_elem_of e u S o : selectStudent e u S = Some o → o ∈ S.
Proof.
  unfold selectStudent, weightedDraw. destruct (currentMode e).
  - apply randomDraw_elem_of.
  - apply weightedSelect_elem_of.
  - apply sequentialDraw_elem_of.
Qed.

(** ** The weighted walk *)

Section Weighted.

Variable weights : gmap string float.

Lemma weightOf_configured S o :
  noFalsyWeight weights S → noInheritedWeight weights S → o ∈ S →
  weightOf weights (snd o) = Num (configuredWeight weights (snd o)).
Proof.
  intros H Hown Hin. unfold weightOf, configuredWeight.
  destruct (weights !! rarity o.2) as [w|] eqn:E.
  - simpl. by rewrite (H o w Hin E).
  - simpl. by rewrite bool_decide_eq_false_2 by (by apply Hown).
Qed.

Lemma noFalsyWeight_cons o S :
  noFalsyWeight weights (o :: S) → noFalsyWeight weights S.
Proof. intros H o' w Hin. apply H. by right. Qed.

Lemma noInheritedWeight_cons o S :
  noInheritedWeight weights (o :: S) → noInheritedWeight weights S.
Proof. intros H o' Hin. apply H. by right. Qed.

(** The loop returns at the first remainder that is not positive. *)
Lemma weightedLoop_spec R S :
  noFalsyWeight weights S → noInheritedWeight weights S →
  weightedLoop weights R S
  = (λ x, fst (snd x)) <$>
      list_find (λ x, PrimFloat.leb (snd x) 0%float = true)
                (zip S (remainders weights R S)).
Proof.
  revert R. induction S as [|o S IH]; intros R H Hown; [done|].
  cbn [weightedLoop remainders zip zip_with].
  rewrite (weightOf_configured (o :: S)) by (done || left).
  cbn [list_find snd subWeight].
  destruct (PrimFloat.leb (R - configuredWeight weights o.2) 0) eqn:E.
  - rewrite decide_True by done. done.
  - rewrite decide_False by done.
    rewrite IH
      by (by eapply noFalsyWeight_cons || by eapply noInheritedWeight_cons).
    rewrite <- option_fmap_compose. apply option_fmap_ext.
    by intros [k [o' r]].
Qed.

Lemma totalWeight_spec S :
  noFalsyWeight weights S → noInheritedWeight weights S →
  totalWeight weights S = NumSum (specTotalWeight weights S).
Proof.
  unfold totalWeight, specTotalWeight. generalize 0%float.
  induction S as [|o S IH]; intros acc H Hown; [done|]. simpl.
  rewrite (weightOf_configured (o :: S)) by (done || left).
  apply IH; [by eapply noFalsyWeight_cons|by eapply noInheritedWeight_cons].
Qed.

(** *** A weight that is not a number *)

Lemma nan_sub w : (nan - w)%float = nan.
Proof.
  apply Prim2SF_inj. rewrite sub_spec.
  change (Prim2SF nan) with S754_nan. by destruct (Prim2SF w).
Qed.

(** Entered with [NaN], the loop never returns. *)
Lemma weightedLoop_nan S : weightedLoop weights nan S = None.
Proof.
  induction S as [|o S IH]; [done|]. cbn [weightedLoop].
  assert (subWeight nan (weightOf weights (snd o)) = nan) as ->.
  { destruct (weightOf weights (snd o)); [apply nan_sub|done]. }
  by change (PrimFloat.leb nan 0) with false.
Qed.

Lemma weightOf_inherited s :
  inheritsWeight weights s → weightOf weights s = Inherited (rarity s).
Proof.
  intros [Hnone Hkey]. unfold weightOf. rewrite Hnone.
  by rewrite bool_decide_eq_true_2.
Qed.

(** One weight that is not a number makes the total a string. *)
Lemma totalWeight_inherited S :
  Exists (λ o, inheritsWeight weights (snd o)) S →
  totalWeight weights S = StrSum.
Proof.
  unfold totalWeight. generalize (NumSum 0).
  assert (∀ l : list StudentObj,
            foldl (λ sum o, Sum_add sum (weightOf weights (snd o))) StrSum l
            = StrSum) as Hstr.
  { induction l as [|o l IH]; [done|]. exact IH. }
  induction S as [|o S IH]; intros acc HS; [by apply Exists_nil in HS|].
  apply Exists_cons in HS as [Ho|HS]; cbn [foldl].
  - rewrite (weightOf_inherited _ Ho).
    destruct acc; apply Hstr.
  - by apply IH.
Qed.

(** With such a weight in the snapshot, the last student is selected
    whatever [Math.random()] returns. *)
Lemma weightedDraw_inherited u S :
  Exists (λ o, inheritsWeight weights (snd o)) S →
  weightedDraw weights u S = last S.
Proof.
  intros HS. unfold weightedDraw, weightedSelect.
  rewrite (totalWeight_inherited S HS). cbn [scaleTo].
  by rewrite weightedLoop_nan.
Qed.

End Weighted.

(** ** What a call of [drawCard] does, case by case *)

Lemma drawCard_sync_spec env e :
  let p := studentDataManager e in
  let avail := getAvailableStudents p in
  let n := Z.of_nat (length avail) - 1 in
  match drawCard_sync env e with
  | (inl Busy, e') => isDrawing e = true ∧ e' = e
  | (inl ExhaustedPool, e') =>
      isDrawing e = false ∧ avail = [] ∧
      e' = emit (DrawErrorEvent ExhaustedPool) e
  | (inl TypeError, e') =>
      isDrawing e = false ∧ avail ≠ [] ∧
      selectStudent e (random env) avail = None ∧
      e' = mkEngine p (drawHistory e) false (currentMode e) (rarityWeights e)
             (notified e ++ [DrawStart (length avail)]
                         ++ [DrawErrorEvent TypeError])
  | (inr k, e') =>
      isDrawing e = false ∧ avail ≠ [] ∧
      ∃ r s, selectStudent e (random env) avail = Some (r, s) ∧
             (r, s) ∈ avail ∧
             let record := mkRecord r (recordTime env) (currentMode e) n in
             k = mkPending r record n ∧
             e' = mkEngine (snd (markStudentAsDrawn (markTime env) (id s) p))
                    (drawHistory e ++ [record])
                    true (currentMode e) (rarityWeights e)
                    (notified e ++ [DrawStart (length avail)])
  end.
Proof.
  intros p avail n. unfold drawCard_sync. fold p. fold avail.
  destruct (isDrawing e) eqn:Hd; [done|].
  destruct (length avail =? 0)%nat eqn:Hlen.
  { apply Nat.eqb_eq in Hlen. split; [done|]. split; [|done].
    by destruct avail. }
  apply Nat.eqb_neq in Hlen.
  assert (avail ≠ []) as Hne by (by intros E; rewrite E in Hlen).
  change (selectStudent (emit (DrawStart (length avail))
                              (setIsDrawing true e)))
    with (selectStudent e).
  destruct (selectStudent e (random env) avail) as [[r s]|] eqn:Hsel.
  - split; [done|]. split; [done|]. exists r, s.
    split; [done|]. split; [by eapply selectStudent_elem_of|]. done.
  - split; [done|]. split; [done|]. split; [done|].
    unfold emit, setIsDrawing. simpl. by rewrite <- app_assoc.
Qed.

Lemma drawCard_spec env e :
  let p := studentDataManager e in
  let avail := getAvailableStudents p in
  let n := Z.of_nat (length avail) - 1 in
  match drawCard env e with
  | (inl Busy, e') => isDrawing e = true ∧ e' = e
  | (inl ExhaustedPool, e') =>
      isDrawing e = false ∧ avail = [] ∧
      e' = emit (DrawErrorEvent ExhaustedPool) e
  | (inl TypeError, e') =>
      isDrawing e = false ∧ avail ≠ [] ∧
      selectStudent e (random env) avail = None ∧
      e' = mkEngine p (drawHistory e) false (currentMode e) (rarityWeights e)
             (notified e ++ [DrawStart (length avail)]
                         ++ [DrawErrorEvent TypeError])
  | (inr res, e') =>
      isDrawing e = false ∧ avail ≠ [] ∧
      ∃ r s, selectStudent e (random env) avail = Some (r, s) ∧
             (r, s) ∈ avail ∧
             let record := mkRecord r (recordTime env) (currentMode e) n in
             res = mkResult true r record n ∧
             e' = mkEngine (snd (markStudentAsDrawn (markTime env) (id s) p))
                    (drawHistory e ++ [record])
                    false (currentMode e) (rarityWeights e)
                    (notified e ++ [DrawStart (length avail)]
                                ++ [DrawComplete r record n])
  end.
Proof.
  intros p avail n. unfold drawCard.
  pose proof (drawCard_sync_spec env e) as H. cbv zeta in H.
  fold p avail n in H.
  destruct (drawCard_sync env e) as [[[]|k] e']; try done.
  destruct H as (Hd & Hne & r & s & Hsel & Hin & -> & ->).
  unfold drawCard_resume. simpl. split; [done|]. split; [done|].
  exists r, s. split; [done|]. split; [done|]. split; [done|].
  unfold emit, setIsDrawing. simpl. by rewrite <- app_assoc.
Qed.

(** The cases of [drawCard env e], each with its facts in [H]. *)
Ltac draw_cases env e H :=
  pose proof (drawCard_spec env e) as H; cbv zeta in H;
  destruct (drawCard env e) as [[[]|?res] ?e'].

(** ** The commit, when ids are unique *)

(** The object found by id is the selected one. *)
Lemma list_find_id_unique (l : list StudentObj) r s :
  NoDup (objId <$> l) → (r, s) ∈ l →
  ∃ k, list_find (λ o, objId o = id s) l = Some (k, (r, s)) ∧
       l !! k = Some (r, s).
Proof.
  intros Hnd Hin. apply list_elem_of_lookup in Hin as [k Hk].
  destruct (list_find (λ o, objId o = id s) l) as [[k' o']|] eqn:E.
  - apply list_find_Some in E as (Hk' & Hid & _).
    assert (k' = k) as ->.
    { eapply NoDup_lookup; [exact Hnd| |].
      - rewrite list_lookup_fmap, Hk'. simpl. by rewrite Hid.
      - by rewrite list_lookup_fmap, Hk. }
    exists k. rewrite Hk in Hk'. by injection Hk' as <-.
  - apply list_find_None in E. rewrite Forall_forall in E.
    exfalso. eapply E; [by eapply list_elem_of_lookup_2|done].
Qed.

Lemma markStudentAsDrawn_available now p r s :
  NoDup (ids p) → (r, s) ∈ getAvailableStudents p →
  ∃ k, students p !! k = Some (r, s) ∧
       markStudentAsDrawn now (id s) p
       = (true,
          mkPool (<[k := (r, setDrawn now s)]> (students p)) (nextRef p)
                 (emitted p ++ [StudentDrawn (setDrawn now s) now;
                                DataUpdated (UpdStudentDrawn (id s) now)])).
Proof.
  intros Hnd [Hin Hund]%getAvailableStudents_elem_of.
  destruct (list_find_id_unique _ r s Hnd Hin) as (k & Hfind & Hk).
  exists k. split; [done|]. unfold markStudentAsDrawn. by rewrite Hfind, Hund.
Qed.

(** ** No object is recorded twice *)

Lemma noRepeat_drawCard env e : noRepeat e → noRepeat (snd (drawCard env e)).
Proof.
  intros (Hrefs & Hids & Hhist & Hdrawn).
  draw_cases env e H; simpl.
  - by destruct H as [_ ->].
  - by destruct H as (_ & _ & ->).
  - by destruct H as (_ & _ & _ & ->).
  - destruct H as (_ & _ & r & s & _ & Hin & _ & ->).
    destruct (markStudentAsDrawn_available (markTime env) _ r s Hids Hin)
      as (k & Hk & ->).
    apply getAvailableStudents_elem_of in Hin as [Hin Hund].
    unfold noRepeat, refs, ids. simpl.
    rewrite !list_fmap_insert. simpl.
    rewrite !list_insert_id by (by rewrite list_lookup_fmap, Hk).
    split; [done|]. split; [done|]. split.
    + (* the object just drawn was not recorded before: it was undrawn *)
      rewrite fmap_app. simpl. apply NoDup_app. split; [done|].
      split; [|apply NoDup_singleton].
      intros r' Hr' ->%list_elem_of_singleton.
      apply list_elem_of_fmap in Hr' as (rec & -> & Hrec).
      rewrite Forall_forall in Hdrawn.
      destruct (Hdrawn _ Hrec) as (s0 & Hs0 & Hd0).
      apply list_elem_of_lookup in Hs0 as [j Hj].
      assert (j = k) as ->.
      { eapply NoDup_lookup; [exact Hrefs| |]; unfold refs;
          rewrite list_lookup_fmap; [by rewrite Hj|by rewrite Hk]. }
      congruence.
    + apply Forall_app. split.
      * (* the objects recorded before keep their mark *)
        eapply Forall_impl; [exact Hdrawn|]. simpl.
        intros rec (s0 & Hs0 & Hd0).
        apply list_elem_of_lookup in Hs0 as [j Hj].
        destruct (decide (j = k)) as [->|Hjk]; [congruence|].
        exists s0. split; [|done]. apply list_elem_of_lookup. exists j.
        cbn [studentDataManager students]. by rewrite list_lookup_insert_ne.
      * apply Forall_singleton. simpl. exists (setDrawn (markTime env) s).
        split; [|done]. apply list_elem_of_lookup. exists k.
        cbn [studentDataManager students student].
        apply list_lookup_insert_eq. by eapply lookup_lt_Some.
Qed.

Lemma noRepeat_drawCards envs e : noRepeat e → noRepeat (drawCards envs e).
Proof.
  revert e. induction envs as [|env envs IH]; intros e He; [done|].
  simpl. apply IH. by apply noRepeat_drawCard.
Qed.

(** ** Every operation keeps the references distinct *)

Lemma wf_step e op :
  wf (studentDataManager e) → wf (studentDataManager (step e op)).
Proof.
  intros Hp. destruct op; cbn [step onPool setPool studentDataManager].
  - draw_cases env e H; cbn [snd].
    + by destruct H as [_ ->].
    + by destruct H as (_ & _ & ->).
    + by destruct H as (_ & _ & _ & ->).
    + destruct H as (_ & _ & r & s & _ & _ & _ & ->).
      by apply wf_markStudentAsDrawn.
  - by apply wf_resetAllStudents.
  - by apply wf_addStudent.
  - by apply wf_removeStudent.
  - by apply wf_updateStudent.
  - by apply wf_markStudentAsDrawn.
  - by apply wf_importStudents.
  - unfold setDrawMode. by repeat case_match.
  - done.
Qed.

Lemma wf_run ops e :
  wf (studentDataManager e) → wf (studentDataManager (run ops e)).
Proof.
  revert e. induction ops as [|op ops IH]; intros e He; [done|].
  simpl. apply IH. by apply wf_step.
Qed.

(** * The claims of the specification *)

(** ** C1: commit and history *)

(** C1, as the code has it.  [drawCard] does not look at what
    [markStudentAsDrawn] returns: there is no commit-conflict failure.  A
    call that fails (Busy, ExhaustedPool, or a throw in the selection)
    leaves the pool and the history as they were.  A call that does not
    fail appends its record, ends with the draw-complete notification and
    reports success, the pool being what [markStudentAsDrawn] made of it.
    When the ids of the roster are unique, that call returned [true] and
    the selected object is marked drawn, so the history then records only
    draws whose commit succeeded. *)
Theorem drawCard_commit (env : DrawEnv) (e : CardDrawEngine) :
  let p := studentDataManager e in
  match drawCard env e with
  | (inl err, e') =>
      studentDataManager e' = p ∧ drawHistory e' = drawHistory e
  | (inr res, e') =>
      success res = true ∧
      drawHistory e' = drawHistory e ++ [res_drawRecord res] ∧
      last (notified e')
      = Some (DrawComplete (res_student res) (res_drawRecord res)
                           (res_remainingCount res)) ∧
      ∃ s, selectStudent e (random env) (getAvailableStudents p)
           = Some (res_student res, s) ∧
           studentDataManager e'
           = snd (markStudentAsDrawn (markTime env) (id s) p) ∧
           (NoDup (ids p) →
            fst (markStudentAsDrawn (markTime env) (id s) p) = true ∧
            drawnRef (studentDataManager e') (res_student res))
  end.
Proof.
  intros p. pose proof (drawCard_spec env e) as H. cbv zeta in H. fold p in H.
  destruct (drawCard env e) as [[[]|res] e'].
  - by destruct H as [_ ->].
  - by destruct H as (_ & _ & ->).
  - by destruct H as (_ & _ & _ & ->).
  - destruct H as (_ & _ & r & s & Hsel & Hin & -> & ->).
    cbn [success res_drawRecord res_student res_remainingCount drawHistory
         notified studentDataManager].
    split; [done|]. split; [done|]. split.
    { by rewrite app_assoc, last_snoc. }
    exists s. split; [done|]. split; [done|]. intros Hnd.
    destruct (markStudentAsDrawn_available (markTime env) p r s Hnd Hin)
      as (k & Hk & ->).
    split; [done|]. exists (setDrawn (markTime env) s). split; [|done].
    apply list_elem_of_lookup. exists k. cbn [snd students].
    apply list_lookup_insert_eq. by eapply lookup_lt_Some.
Qed.

(** C1 at the roster [solo], whose ids are unique: the draw succeeds, the
    commit returned [true] and the drawn object is marked. *)
Lemma drawCard_commit_witness :
  NoDup (ids solo) ∧
  ∃ res e', drawCard env0 (sequential solo) = (inr res, e') ∧
            fst (markStudentAsDrawn (markTime env0) (Finite 1) solo) = true ∧
            drawnRef (studentDataManager e') (res_student res).
Proof.
  assert (NoDup (ids solo)) as Hnd
    by (apply (bool_decide_unpack _); vm_compute; exact I).
  split; [exact Hnd|].
  pose proof (drawCard_commit env0 (sequential solo)) as H.
  cbv zeta in H.
  destruct (drawCard env0 (sequential solo)) as [[err|res] e'] eqn:E;
    [vm_compute in E; discriminate|].
  destruct H as (_ & _ & _ & s & Hsel & _ & H).
  vm_compute in Hsel. injection Hsel as _ <-.
  destruct (H Hnd) as [Hm Hd].
  exists res, e'. split; [done|]. split; [exact Hm|exact Hd].
Defined.

(** C1 as stated fails.  On [twins], after the first draw took the first
    student, the second draw selects the other one, [b]; the pool's
    mark-drawn call for [b]'s id returns [false] (it finds the first
    student, already drawn); the draw still reports success and appends a
    record for [b], and [b] stays available. *)
Lemma drawCard_records_failed_commit :
  let e1 := snd (drawCard env0 (sequential twins)) in
  let p1 := studentDataManager e1 in
  let b := mkStudent (Finite 1) "b" "a.png" "N" false None in
  selectStudent e1 (random env0) (getAvailableStudents p1) = Some (1%nat, b) ∧
  fst (markStudentAsDrawn (markTime env0) (id b) p1) = false ∧
  ∃ res e2,
    drawCard env0 e1 = (inr res, e2) ∧ success res = true ∧
    res_student res = 1%nat ∧
    student <$> drawHistory e2 = [0%nat; 1%nat] ∧
    getAvailableStudents (studentDataManager e2) = [(1%nat, b)].
Proof.
  cbv zeta. split; [vm_compute; reflexivity|]. split; [vm_compute; reflexivity|].
  eexists _, _. split; [vm_compute; reflexivity|]. repeat split.
Qed.

(** ** C2: reset during a draw *)

(** C2, as the code has it.  The [await] of [drawCard] comes after the
    commit: when the call is suspended the record is already appended and
    the engine is drawing, and, when the ids of the roster are unique, the
    selected object is marked drawn.  A [reset] in that gap clears every
    drawn mark and the history, and the drawing flag with them, so that a
    further [drawCard] is no longer rejected as busy.  In whatever state
    the engine is when the draw resumes, it resumes with no re-validation:
    it emits draw-complete, reports success with the student selected
    before, and leaves the engine idle, roster and history as it found
    them.  When nothing but the reset ran in the gap, draw-complete
    follows reset-complete, and after the draw the history is empty, no
    student is marked drawn and the engine is idle. *)
Theorem reset_during_draw (env : DrawEnv) (clock : nat → string)
    (e e1 : CardDrawEngine) (k : Pending) :
  drawCard_sync env e = (inr k, e1) →
  (drawHistory e1 = drawHistory e ++ [drawRecord k] ∧ isDrawing e1 = true ∧
   (NoDup (ids (studentDataManager e)) →
    drawnRef (studentDataManager e1) (selectedStudent k))) ∧
  (let e2 := reset clock e1 in
   drawHistory e2 = [] ∧ getDrawnStudents (studentDataManager e2) = [] ∧
   isDrawing e2 = false ∧ ∀ env', fst (drawCard_sync env' e2) ≠ inl Busy) ∧
  (∀ e', let (res, e3) := drawCard_resume k e' in
         success res = true ∧ res_student res = selectedStudent k ∧
         res_drawRecord res = drawRecord k ∧
         notified e3
         = notified e' ++
             [DrawComplete (selectedStudent k) (drawRecord k) (remaining k)] ∧
         studentDataManager e3 = studentDataManager e' ∧
         drawHistory e3 = drawHistory e' ∧ isDrawing e3 = false) ∧
  let (res, e3) := drawCard_resume k (reset clock e1) in
  success res = true ∧ res_student res = selectedStudent k ∧
  notified e3
  = notified e1 ++
      [ResetComplete (length (students (studentDataManager e1)));
       DrawComplete (selectedStudent k) (drawRecord k) (remaining k)] ∧
  drawHistory e3 = [] ∧
  getDrawnStudents (studentDataManager e3) = [] ∧
  isDrawing e3 = false.
Proof.
  intros Hsync. pose proof (drawCard_sync_spec env e) as H. cbv zeta in H.
  rewrite Hsync in H. destruct H as (_ & _ & r & s & _ & Hin & -> & ->).
  split; [|split; [|split]].
  - split; [done|]. split; [done|]. intros Hnd.
    destruct (markStudentAsDrawn_available (markTime env) _ r s Hnd Hin)
      as (j & Hj & ->).
    exists (setDrawn (markTime env) s). split; [|done].
    apply list_elem_of_lookup. exists j.
    cbn [studentDataManager snd students].
    apply list_lookup_insert_eq. by eapply lookup_lt_Some.
  - cbv zeta. split; [done|].
    split; [apply getDrawnStudents_resetAllStudents|]. split; [done|].
    intros env'. unfold drawCard_sync, reset.
    cbn [isDrawing emit setIsDrawing setHistory setPool].
    by repeat case_match.
  - intros e'. unfold drawCard_resume.
    cbn [success res_student res_drawRecord selectedStudent drawRecord
         remaining]. done.
  - unfold drawCard_resume, reset, emit, setIsDrawing, setHistory, setPool.
    cbn [success res_student selectedStudent drawRecord remaining notified
         drawHistory studentDataManager isDrawing].
    split; [done|]. split; [done|]. split.
    { rewrite <- app_assoc. do 3 f_equal.
      unfold getAllStudents, resetAllStudents.
      cbn [students]. by rewrite length_fmap. }
    split; [done|]. split; [|done]. apply getDrawnStudents_resetAllStudents.
Qed.

(** C2 at a draw on [solo] with a reset in its gap. *)
Lemma reset_during_draw_witness :
  ∃ k e1,
    drawCard_sync env0 (sequential solo) = (inr k, e1) ∧
    drawHistory (snd (drawCard_resume k (reset clock0 e1))) = [] ∧
    getDrawnStudents
      (studentDataManager (snd (drawCard_resume k (reset clock0 e1)))) = [].
Proof.
  destruct (drawCard_sync env0 (sequential solo)) as [[err|k] e1] eqn:E;
    [vm_compute in E; discriminate|].
  exists k, e1. split; [reflexivity|].
  pose proof (reset_during_draw env0 clock0 (sequential solo) e1 k E)
    as (_ & _ & _ & H).
  destruct (drawCard_resume k (reset clock0 e1)) as [res e3].
  destruct H as (_ & _ & _ & Hh & Hd & _). split; [exact Hh|exact Hd].
Defined.

(** C2 as stated fails: the draw on [solo] interrupted by a reset is not
    rejected.  It resolves with [success: true], and the notifications are
    draw-start, reset-complete, draw-complete: no draw-error. *)
Lemma reset_during_draw_completes :
  ∃ k e1,
    drawCard_sync env0 (sequential solo) = (inr k, e1) ∧
    success (fst (drawCard_resume k (reset clock0 e1))) = true ∧
    notified (snd (drawCard_resume k (reset clock0 e1)))
    = [DrawStart 1; ResetComplete 1;
       DrawComplete 0%nat (mkRecord 0%nat "t2" SEQUENTIAL 0) 0].
Proof. eexists _, _. split; [vm_compute; reflexivity|]. split; reflexivity. Qed.

(** Without unique ids the selected object need not be marked when the
    draw is suspended: on [twins] the second draw selects the second
    student, marks nothing, and is suspended with that student undrawn. *)
Lemma drawCard_suspended_unmarked :
  ∃ k e1 s,
    drawCard_sync env0 (snd (drawCard env0 (sequential twins))) = (inr k, e1) ∧
    selectedStudent k = 1%nat ∧
    students (studentDataManager e1) !! 1%nat = Some (1%nat, s) ∧
    isDrawn s = false.
Proof.
  eexists _, _, _. split; [vm_compute; reflexivity|].
  split; [reflexivity|]. split; reflexivity.
Qed.

(** After a reset in the gap a second draw is accepted while the first is
    still suspended; the first, resuming, clears the drawing flag under
    the second, and the history then holds the record of the second. *)
Lemma reset_during_draw_second_draw :
  ∃ k e1 k' e2,
    drawCard_sync env0 (sequential quartet) = (inr k, e1) ∧
    drawCard_sync env0 (reset clock0 e1) = (inr k', e2) ∧
    isDrawing e2 = true ∧
    isDrawing (snd (drawCard_resume k e2)) = false ∧
    drawHistory (snd (drawCard_resume k e2)) = [drawRecord k'].
Proof.
  eexists _, _, _, _. split; [vm_compute; reflexivity|].
  split; [vm_compute; reflexivity|]. split; [reflexivity|].
  split; reflexivity.
Qed.

(** ** C3: failures of a draw *)

(** C3, as the code has it.  The result [inl err] is the rejection of the
    promise [drawCard] returns.  A Busy failure is reported to the caller
    and nothing else happens: no notification, the engine unchanged and
    still drawing.  Every other failure (ExhaustedPool, or a throw in the
    selection) emits draw-error with the error as its last notification
    and leaves the engine idle, the pool and the history unchanged.  The
    code has no commit failure. *)
Theorem drawCard_failure (env : DrawEnv) (e e' : CardDrawEngine)
    (err : DrawError) :
  drawCard env e = (inl err, e') →
  match err with
  | Busy => e' = e ∧ isDrawing e' = true
  | _ =>
      last (notified e') = Some (DrawErrorEvent err) ∧
      isDrawing e' = false ∧
      studentDataManager e' = studentDataManager e ∧
      drawHistory e' = drawHistory e
  end.
Proof.
  intros Hdraw. pose proof (drawCard_spec env e) as H. cbv zeta in H.
  rewrite Hdraw in H. destruct err.
  - destruct H as [Hd ->]. done.
  - destruct H as (Hd & _ & ->). unfold emit.
    cbn [notified isDrawing studentDataManager drawHistory].
    by rewrite last_snoc.
  - destruct H as (Hd & _ & _ & ->).
    cbn [notified isDrawing studentDataManager drawHistory].
    by rewrite app_assoc, last_snoc.
Qed.

(** C3 at a draw on the empty roster: ExhaustedPool, notified, idle. *)
Lemma drawCard_failure_witness :
  drawCard env0 (sequential emptyPool)
  = (inl ExhaustedPool,
     emit (DrawErrorEvent ExhaustedPool) (sequential emptyPool)) ∧
  last (notified (emit (DrawErrorEvent ExhaustedPool) (sequential emptyPool)))
  = Some (DrawErrorEvent ExhaustedPool) ∧
  isDrawing (emit (DrawErrorEvent ExhaustedPool) (sequential emptyPool))
  = false.
Proof.
  assert (drawCard env0 (sequential emptyPool)
          = (inl ExhaustedPool,
             emit (DrawErrorEvent ExhaustedPool) (sequential emptyPool)))
    as E by reflexivity.
  split; [exact E|].
  destruct (drawCard_failure env0 _ _ _ E) as (H1 & H2 & _).
  split; [exact H1|exact H2].
Defined.

(** C3 as stated fails for Busy.  With a first draw on [solo] suspended,
    a second call fails with Busy; the engine is as before: still
    drawing, and its only notification is the draw-start of the first
    call. *)
Lemma busy_draw_emits_nothing :
  let eb := snd (drawCard_sync env0 (sequential solo)) in
  isDrawing eb = true ∧
  drawCard env0 eb = (inl Busy, eb) ∧
  notified eb = [DrawStart 1].
Proof. cbv zeta. repeat split. Qed.

(** ** C4: no repeat, and the partition of the roster *)

(** C4, as the code has it.  On a roster whose ids are unique (and whose
    objects are distinct, which [wf] gives for every roster the operations
    build), with an empty history, after any sequence of awaited [drawCard]
    calls, whatever they read from outside, no object is recorded twice in
    the history.  And after any sequence of operations on any engine the
    drawn and the available students add up to the whole roster. *)
Theorem no_repeat_and_partition (e : CardDrawEngine) (envs : list DrawEnv)
    (ops : list Op) :
  NoDup (refs (studentDataManager e)) →
  NoDup (ids (studentDataManager e)) →
  drawHistory e = [] →
  NoDup (student <$> drawHistory (drawCards envs e)) ∧
  let p := studentDataManager (run ops e) in
  (length (getDrawnStudents p) + length (getAvailableStudents p))%nat
  = length (getAllStudents p).
Proof.
  intros Hrefs Hids Hhist. split; [|apply partition_identity].
  apply (noRepeat_drawCards envs e). unfold noRepeat. rewrite Hhist.
  split; [done|]. split; [done|].
  split; [apply NoDup_nil_2|apply Forall_nil_2].
Qed.

(** C4 at the roster [quartet]: five draws in random mode, and a run of
    other operations. *)
Lemma no_repeat_and_partition_witness :
  NoDup (refs quartet) ∧ NoDup (ids quartet) ∧
  NoDup (student <$>
           drawHistory (drawCards [env0; env0; env0; env0; env0]
                                  (newCardDrawEngine quartet))) ∧
  let p := studentDataManager
             (run [OpDraw env0; OpReset clock0; OpAdd 0.5%float "c" None;
                   OpDraw env0; OpRemove (Finite 1)]
                  (newCardDrawEngine quartet)) in
  (length (getDrawnStudents p) + length (getAvailableStudents p))%nat
  = length (getAllStudents p).
Proof.
  assert (NoDup (refs quartet)) as H1
    by (apply (bool_decide_unpack _); vm_compute; exact I).
  assert (NoDup (ids quartet)) as H2
    by (apply (bool_decide_unpack _); vm_compute; exact I).
  split; [exact H1|]. split; [exact H2|].
  exact (no_repeat_and_partition (newCardDrawEngine quartet)
           [env0; env0; env0; env0; env0]
           [OpDraw env0; OpReset clock0; OpAdd 0.5%float "c" None;
            OpDraw env0; OpRemove (Finite 1)]
           H1 H2 eq_refl).
Defined.

(** C4 as stated fails on a fresh roster with a repeated id.  [twins] is
    what import makes of two records with id 1: both undrawn, the history
    empty.  Three draws record the first object, then the second one
    twice. *)
Lemma repeated_entity_in_history :
  ids twins = [Finite 1; Finite 1] ∧
  isDrawn <$> roster twins = [false; false] ∧
  drawHistory (sequential twins) = [] ∧
  student <$> drawHistory (drawCards [env0; env0; env0] (sequential twins))
  = [0%nat; 1%nat; 1%nat].
Proof. repeat split; vm_compute; reflexivity. Qed.

(** ** C5: the weighted policy *)

(** C5, as the code has it.  The weight of an entity is the weight
    configured for its rarity; where none is configured it is 1, unless
    the rarity is the name of a property every object inherits
    (['constructor'], ['toString'], ...), and then what is read is not a
    number.  For every non-empty snapshot [S] none of whose rarities has a
    configured weight of 0 (or NaN) or is read from [Object.prototype],
    and every [R]: [weightedDraw], entered in its loop with [R], returns
    the first entity of [S] at which [R], less the weights met so far, is
    not positive, and the last entity of [S] when there is none; [R] is
    [Math.random()] times the sum [W] of these weights over [S]; and an
    entity of [S] is returned.  When a rarity of [S] is read from
    [Object.prototype], the total is not a number and the last entity of
    [S] is returned whatever [Math.random()] gives. *)
Theorem weightedDraw_walk (weights : gmap string float) (u R : float)
    (S : list StudentObj) :
  S ≠ [] →
  (noFalsyWeight weights S → noInheritedWeight weights S →
   weightedSelect weights R S = specWeightedSelect weights R S ∧
   weightedDraw weights u S
   = specWeightedSelect weights (u * specTotalWeight weights S)%float S ∧
   ∃ o, weightedSelect weights R S = Some o ∧ o ∈ S) ∧
  (Exists (λ o, inheritsWeight weights (snd o)) S →
   weightedDraw weights u S = last S).
Proof.
  intros HS. split; [|apply weightedDraw_inherited].
  intros H Hown.
  assert (∀ R', weightedSelect weights R' S = specWeightedSelect weights R' S)
    as Heq.
  { intros R'. unfold weightedSelect, specWeightedSelect.
    rewrite weightedLoop_spec by done.
    by destruct (list_find _ _) as [[k [o r]]|]. }
  split; [apply Heq|]. split.
  - unfold weightedDraw. by rewrite totalWeight_spec, Heq.
  - destruct (weightedSelect_is_Some weights R S HS) as [o Ho].
    exists o. split; [done|]. by eapply weightedSelect_elem_of.
Qed.

(** C5 at the default weights, on [srFirst] with [Math.random()] 0.5:
    [W] is 1.1, [R] is 0.55, and the walk passes the super-rare student
    (0.1) and stops at the ordinary one. *)
Lemma weightedDraw_walk_witness :
  srFirst ≠ [] ∧
  noFalsyWeight defaultRarityWeights srFirst ∧
  noInheritedWeight defaultRarityWeights srFirst ∧
  weightedDraw defaultRarityWeights 0.5%float srFirst
  = specWeightedSelect defaultRarityWeights
      (0.5 * specTotalWeight defaultRarityWeights srFirst)%float srFirst ∧
  weightedDraw defaultRarityWeights 0.5%float srFirst = srFirst !! 1%nat.
Proof.
  assert (noFalsyWeight defaultRarityWeights srFirst) as H.
  { intros o w Hin Hw.
    repeat (apply elem_of_cons in Hin as [->|Hin];
            [vm_compute in Hw; by injection Hw as <-|]).
    by apply elem_of_nil in Hin. }
  assert (noInheritedWeight defaultRarityWeights srFirst) as Hown.
  { intros o Hin Hw.
    repeat (apply elem_of_cons in Hin as [->|Hin];
            [by vm_compute in Hw|]).
    by apply elem_of_nil in Hin. }
  split; [done|]. split; [exact H|]. split; [exact Hown|].
  destruct (weightedDraw_walk defaultRarityWeights 0.5%float 0.5%float srFirst)
    as [Hwalk _]; [done|].
  destruct (Hwalk H Hown) as (_ & Heq & _).
  split; [exact Heq|]. vm_compute. reflexivity.
Defined.

(** C5 as stated fails when a weight of 0 is configured.  After
    [setRarityWeights({ SR: 0 })] the configured weights over [srFirst]
    sum to 1; with [Math.random()] 0.25 the walk of the claim starts from
    0.25, passes the super-rare student (weight 0) and returns the
    ordinary one.  The code gives the super-rare student the weight 1 and
    returns it. *)
Lemma weightedDraw_zero_weight :
  zeroSR !! "SR" = Some 0%float ∧ zeroSR !! "N" = Some 1%float ∧
  specTotalWeight zeroSR srFirst = 1%float ∧
  specWeightedSelect zeroSR (0.25 * specTotalWeight zeroSR srFirst)%float
                     srFirst
  = srFirst !! 1%nat ∧
  weightedDraw zeroSR 0.25%float srFirst = srFirst !! 0%nat.
Proof. repeat split; vm_compute; reflexivity. Qed.

(** A rarity read from [Object.prototype]: on [ctorFirst], whose first
    student has the rarity ['constructor'], the walk over the configured
    weights stops at the first student for [Math.random()] 0; the code
    returns the last one. *)
Lemma weightedDraw_inherited_weight :
  defaultRarityWeights !! "constructor" = None ∧
  specWeightedSelect defaultRarityWeights
    (0 * specTotalWeight defaultRarityWeights ctorFirst)%float ctorFirst
  = ctorFirst !! 0%nat ∧
  weightedDraw defaultRarityWeights 0%float ctorFirst = ctorFirst !! 1%nat.
Proof. repeat split; vm_compute; reflexivity. Qed.

(** ** C6: the sequential policy *)

(** C6.  [sequentialDraw] on a non-empty snapshot returns an entity of the
    snapshot whose id is the least one.  An idle engine in sequential mode
    with an available student draws such an entity: the call succeeds and
    its student has the least id among the available ones.  And the
    roster imported with ids 5, 3, 8, 1 (whatever the other fields, and
    whatever the draws read from outside) is drawn in the order 1, 3, 5, 8,
    after which a draw fails with ExhaustedPool. *)
Theorem sequentialDraw_minimum :
  (∀ (o : StudentObj) (S : list StudentObj),
     ∃ m, sequentialDraw (o :: S) = Some m ∧ m ∈ o :: S ∧
          ∀ x, x ∈ o :: S → jsnum_le (objId m) (objId x)) ∧
  (∀ (env : DrawEnv) (e : CardDrawEngine),
     currentMode e = SEQUENTIAL → isDrawing e = false →
     getAvailableStudents (studentDataManager e) ≠ [] →
     ∃ res e' s,
       drawCard env e = (inr res, e') ∧
       (res_student res, s) ∈ getAvailableStudents (studentDataManager e) ∧
       ∀ x, x ∈ getAvailableStudents (studentDataManager e) →
            jsnum_le (id s) (objId x)) ∧
  (∀ random0 random clock (d1 d2 d3 d4 : StudentData)
     (env1 env2 env3 env4 env5 : DrawEnv),
     let p := snd (importStudents random clock
                     (Array [withId 5 d1; withId 3 d2; withId 8 d3; withId 1 d4])
                     (newStudentDataManager random0)) in
     ∃ e, setDrawMode "sequential" (newCardDrawEngine p) = Some e ∧
          drawOrder (drawCards [env1; env2; env3; env4] e)
          = [Some (Finite 1); Some (Finite 3); Some (Finite 5); Some (Finite 8)] ∧
          fst (drawCard env5 (drawCards [env1; env2; env3; env4] e))
          = inl ExhaustedPool).
Proof.
  split; [apply sequentialDraw_min|]. split.
  - intros env e Hmode Hidle Hne.
    pose proof (drawCard_spec env e) as H. cbv zeta in H.
    destruct (getAvailableStudents (studentDataManager e)) as [|o S] eqn:Ha;
      [done|].
    destruct (sequentialDraw_min o S) as (m & Hm & _ & Hmin).
    assert (selectStudent e (random env) (o :: S) = Some m) as Hsel
      by (unfold selectStudent; by rewrite Hmode).
    destruct (drawCard env e) as [[[]|res] e'].
    + destruct H as [H _]. congruence.
    + by destruct H as (_ & H & _).
    + destruct H as (_ & _ & H & _). congruence.
    + destruct H as (_ & _ & r & s & Hsel' & Hin & -> & _).
      exists (mkResult true r
                (mkRecord r (recordTime env) (currentMode e)
                          (Z.of_nat (length (o :: S)) - 1))
                (Z.of_nat (length (o :: S)) - 1)), e', s.
      split; [done|]. split; [done|].
      rewrite Hsel in Hsel'. injection Hsel' as ->. exact Hmin.
  - intros. eexists. split; [reflexivity|]. split; vm_compute; reflexivity.
Qed.

(** C6 at [quartet] in sequential mode: the first draw takes the student
    with id 1. *)
Lemma sequentialDraw_minimum_witness :
  currentMode (sequential quartet) = SEQUENTIAL ∧
  getAvailableStudents quartet ≠ [] ∧
  ∃ res e' s,
    drawCard env0 (sequential quartet) = (inr res, e') ∧
    (res_student res, s) ∈ getAvailableStudents quartet ∧
    ∀ x, x ∈ getAvailableStudents quartet → jsnum_le (id s) (objId x).
Proof.
  split; [reflexivity|].
  assert (getAvailableStudents quartet ≠ []) as Hne by (vm_compute; discriminate).
  split; [exact Hne|].
  exact (proj1 (proj2 sequentialDraw_minimum) env0 (sequential quartet)
               eq_refl eq_refl Hne).
Defined.

(** ** C7: export, then import *)

(** C7, as the code has it.  Import keeps a field of a record when it is
    truthy and defaults it otherwise.  For every roster in which every
    student has an id other than 0 and a non-empty name, avatar and
    rarity, whatever its drawn marks, importing what [exportStudents]
    returns (into any pool) succeeds and gives the same students in the
    same order, each with the same id, name, avatar and rarity, and each
    undrawn ([isDrawn] false, [drawnAt] null). *)
Theorem import_export_roundtrip (random : nat → float)
    (clock : nat → string)
    (p q : StudentDataManager) :
  Forall truthyFields (roster p) →
  fst (importStudents random clock (Array (Obj <$> exportStudents p)) q) = true ∧
  roster (snd (importStudents random clock (Array (Obj <$> exportStudents p)) q))
  = clearDrawn <$> roster p.
Proof.
  intros Hall.
  destruct (roster_importStudents random clock (exportStudents p) q) as [-> ->].
  split; [done|]. apply list_eq. intros i.
  unfold exportStudents, roster in *.
  rewrite list_lookup_imap, !list_lookup_fmap.
  destruct (students p !! i) as [[r s]|] eqn:E; simpl; [|done].
  f_equal. apply importedStudent_export.
  rewrite Forall_forall in Hall. apply Hall.
  apply list_elem_of_fmap. exists (r, s). split; [done|].
  by apply list_elem_of_lookup_2 in E.
Qed.

(** C7 at [drawnSolo], whose student is drawn. *)
Lemma import_export_roundtrip_witness :
  Forall truthyFields (roster drawnSolo) ∧
  isDrawn <$> roster drawnSolo = [true] ∧
  roster (snd (importStudents half clock0
                 (Array (Obj <$> exportStudents drawnSolo)) drawnSolo))
  = clearDrawn <$> roster drawnSolo.
Proof.
  assert (Forall truthyFields (roster drawnSolo)) as H.
  { repeat constructor; by vm_compute. }
  split; [exact H|]. split; [reflexivity|].
  exact (proj2 (import_export_roundtrip half clock0 drawnSolo drawnSolo H)).
Defined.

(** C7 as stated fails on [blanks]: the student with the empty avatar and
    the student with the empty name come back with the defaults of
    import. *)
Lemma import_export_blank_fields :
  name <$> roster blanks = ["a"; ""] ∧
  avatar <$> roster blanks
  = [""; "https://api.dicebear.com/7.x/avataaars/svg?seed=2"] ∧
  fst (importStudents half clock0 (Array (Obj <$> exportStudents blanks)) blanks)
  = true ∧
  name <$> roster (snd (importStudents half clock0
                          (Array (Obj <$> exportStudents blanks)) blanks))
  = ["a"; "学生2号"] ∧
  avatar <$> roster (snd (importStudents half clock0
                            (Array (Obj <$> exportStudents blanks)) blanks))
  = ["https://api.dicebear.com/7.x/avataaars/svg?seed=1";
     "https://api.dicebear.com/7.x/avataaars/svg?seed=2"].
Proof. repeat split. Qed.

(** ** C8: a failed import *)

(** C8 at the failing input.  On [solo], importing an array whose second
    element is [null] returns [false], and the roster is no longer the
    student with id 1: it is the one record read before the [null]. *)
Theorem importStudents_failure_replaces_roster :
  let r := importStudents half clock0
             (Array [entry 7 "x"; Nullish; entry 8 "y"]) solo in
  ids solo = [Finite 1] ∧ fst r = false ∧ ids (snd r) = [Finite 7].
Proof. repeat split. Qed.

(** ** C9: the ids of the roster *)

(** C9, as the code has it.  The roster of the constructor has the ids
    1, ..., 49, which are unique and positive.  From a roster with unique
    positive ids, mark-drawn, reset and remove give one, and so does add
    when the roster is not empty and its greatest id is below 2^53: the
    new id is the greatest id plus one.  Import and update validate
    nothing: import of an array of records succeeds whatever their ids and
    installs each id as given, or the position plus one when it is missing
    or 0; update overwrites the id of the student it finds with the id it
    is given. *)
Theorem ids_unique_positive (p : StudentDataManager) :
  uniquePositive p →
  (∀ random,
     ids (newStudentDataManager random)
     = (λ i : nat, Finite (Z.of_nat i + 1)) <$> seq 0 49 ∧
     uniquePositive (newStudentDataManager random)) ∧
  (∀ now i, uniquePositive (snd (markStudentAsDrawn now i p))) ∧
  (∀ clock, uniquePositive (resetAllStudents clock p)) ∧
  (∀ i, uniquePositive (snd (removeStudent i p))) ∧
  (∀ random name avatar,
     students p ≠ [] → jsnum_lt (Math_max (ids p)) (Finite (2 ^ 53)) →
     (∃ m, Math_max (ids p) = Finite m ∧
           objId (fst (addStudent random name avatar p)) = Finite (m + 1)) ∧
     uniquePositive (snd (addStudent random name avatar p))) ∧
  (∀ random clock datas,
     fst (importStudents random clock (Array (Obj <$> datas)) p) = true ∧
     ids (snd (importStudents random clock (Array (Obj <$> datas)) p))
     = imap (λ index data, id (importedStudent random index data)) datas) ∧
  (∀ i updates,
     ids (snd (updateStudent i updates p))
     = match list_find (λ o, objId o = i) (students p) with
       | Some (k, o) => <[k := default (objId o) (upd_id updates)]> (ids p)
       | None => ids p
       end).
Proof.
  intros Hp.
  split; [intros; split; [apply ids_newStudentDataManager
                         |apply uniquePositive_newStudentDataManager]|].
  split; [intros; by apply uniquePositive_markStudentAsDrawn|].
  split; [intros; by apply uniquePositive_resetAllStudents|].
  split; [intros; by apply uniquePositive_removeStudent|].
  split.
  { intros random name avatar Hne Hsafe.
    split; [|by apply uniquePositive_addStudent].
    destruct Hp as [_ Hpos].
    destruct (Math_max_positive (ids p)) as (m & Hm & Hm0); [|done|].
    { unfold ids. by destruct (students p). }
    rewrite Hm in Hsafe. simpl in Hsafe. exists m. split; [done|].
    rewrite addStudent_id, Hm. apply jsnum_succ_exact. lia. }
  split.
  - intros. split; [apply roster_importStudents|apply ids_importStudents].
  - intros i updates.
    destruct (list_find _ (students p)) as [[k o]|] eqn:E.
    + by apply ids_updateStudent.
    + unfold updateStudent. by rewrite E.
Qed.

(** C9 at [solo]: its id is unique and positive, and so are the ids after
    an add. *)
Lemma ids_unique_positive_witness :
  uniquePositive solo ∧
  uniquePositive (snd (addStudent 0.5%float "b" None solo)) ∧
  ids (snd (addStudent 0.5%float "b" None solo)) = [Finite 1; Finite 2].
Proof.
  assert (uniquePositive solo) as H.
  { split; [apply (bool_decide_unpack _); vm_compute; exact I|].
    repeat constructor. }
  split; [exact H|].
  destruct (ids_unique_positive solo H) as (_ & _ & _ & _ & Hadd & _).
  split; [|reflexivity].
  apply (Hadd 0.5%float "b" None); [discriminate|reflexivity].
Defined.

(** From 2^53 on the sum of [addStudent] is rounded: on the roster whose
    only id is 2^53 the new student gets the id 2^53 again. *)
Lemma addStudent_repeats_id :
  uniquePositive huge ∧
  ids (snd (addStudent 0.5%float "b" None huge))
  = [Finite (2 ^ 53); Finite (2 ^ 53)] ∧
  ¬ NoDup (ids (snd (addStudent 0.5%float "b" None huge))).
Proof.
  split.
  { split; [apply (bool_decide_unpack _); vm_compute; exact I|].
    repeat constructor. }
  split; [reflexivity|]. intros H.
  change (NoDup [Finite (2 ^ 53); Finite (2 ^ 53)]) in H.
  apply NoDup_cons in H as [H _]. apply H. left.
Qed.

(** C9 as stated fails: import accepts a list with a repeated id and a
    negative id, and the roster then holds them. *)
Lemma importStudents_accepts_any_ids :
  let r := importStudents half clock0
             (Array [entry 1 "a"; entry 1 "b"; entry (-2) "c"]) solo in
  fst r = true ∧ ids (snd r) = [Finite 1; Finite 1; Finite (-2)] ∧
  ¬ NoDup (ids (snd r)) ∧ ¬ Forall jsnum_positive (ids (snd r)).
Proof.
  cbv zeta. split; [reflexivity|]. split; [reflexivity|]. split.
  - intros H. change (NoDup [Finite 1; Finite 1; Finite (-2)]) in H.
    apply NoDup_cons in H as [H _]. apply H. left.
  - intros H.
    change (Forall jsnum_positive [Finite 1; Finite 1; Finite (-2)]) in H.
    apply Forall_cons in H as [_ H]. apply Forall_cons in H as [_ H].
    apply Forall_cons in H as [H _]. simpl in H. lia.
Qed.

(** ** C10: the id of an added student *)

(** C10 at the failing input.  On an empty roster [Math.max()] is
    [-Infinity], and so is the id of the student [addStudent] returns: not
    a positive integer.  A second add gets the same id again. *)
Theorem addStudent_empty_roster (random : float) (name : string)
    (avatar : option string) (next : nat) (evs : list PoolEvent) :
  let p := mkPool [] next evs in
  objId (fst (addStudent random name avatar p)) = NegInfinity ∧
  ¬ jsnum_positive (objId (fst (addStudent random name avatar p))) ∧
  ids (snd (addStudent random name avatar
              (snd (addStudent random name avatar p))))
  = [NegInfinity; NegInfinity].
Proof. cbv zeta. split; [done|]. split; [simpl; tauto|done]. Qed.

(** Where the greatest id of the roster is a number below 2^53 in
    magnitude, the added student is undrawn and its id is that id plus
    one, above every id of the roster. *)
Lemma addStudent_fresh_id (random : float) (name : string)
    (avatar : option string) (p : StudentDataManager) (m : Z) :
  Math_max (ids p) = Finite m → - 2 ^ 53 ≤ m < 2 ^ 53 →
  let o := fst (addStudent random name avatar p) in
  objId o = Finite (m + 1) ∧
  Forall (λ x, jsnum_lt x (objId o)) (ids p) ∧
  isDrawn (snd o) = false ∧ drawnAt (snd o) = None.
Proof.
  intros Hm Hsafe. cbv zeta.
  split; [by rewrite addStudent_id, Hm, jsnum_succ_exact|].
  split; [by eapply addStudent_id_above|done].
Qed.

(** * Further properties of the code *)

(** ** Lookup by id *)

Lemma getStudentById_Some i p o :
  getStudentById i p = Some o →
  ∃ k, students p !! k = Some o ∧ objId o = i ∧
       ∀ j o', students p !! j = Some o' → (j < k)%nat → objId o' ≠ i.
Proof.
  unfold getStudentById. intros H.
  destruct (list_find _ _) as [[k o']|] eqn:E; [|done].
  injection H as ->. apply list_find_Some in E as (Hk & Hid & Hfirst).
  exists k. eauto.
Qed.

Lemma getStudentById_None i p : getStudentById i p = None ↔ i ∉ ids p.
Proof.
  unfold getStudentById, ids. rewrite fmap_None, list_find_None.
  rewrite Forall_forall, list_elem_of_fmap. split.
  - intros H (o & -> & Ho). by eapply H.
  - intros H o Ho Hid. apply H. by exists o.
Qed.

Lemma getStudentById_unique p r s :
  NoDup (ids p) → (r, s) ∈ students p → getStudentById (id s) p = Some (r, s).
Proof.
  intros Hnd Hin. unfold getStudentById.
  destruct (list_find_id_unique _ r s Hnd Hin) as (k & -> & _). done.
Qed.

(** X1.  [getStudentById] returns the first student of the roster that
    has the id, and [null] exactly when no student has it; when the ids are
    unique, every student of the roster is the one found under its id. *)
Theorem getStudentById_found (i : jsnum) (p : StudentDataManager) :
  match getStudentById i p with
  | Some o =>
      objId o = i ∧
      ∃ k, students p !! k = Some o ∧
           ∀ j o', students p !! j = Some o' → (j < k)%nat → objId o' ≠ i
  | None => i ∉ ids p
  end ∧
  (NoDup (ids p) →
   ∀ o, o ∈ students p → getStudentById (objId o) p = Some o).
Proof.
  split.
  - destruct (getStudentById i p) as [o|] eqn:E.
    + apply getStudentById_Some in E as (k & ? & ? & ?). eauto.
    + by apply getStudentById_None.
  - intros Hnd [r s] Hin. by apply getStudentById_unique.
Qed.

Lemma getStudentById_iff p j o :
  NoDup (ids p) →
  getStudentById j p = Some o ↔ o ∈ students p ∧ objId o = j.
Proof.
  intros Hnd. split.
  - intros (k & Hk & Hid & _)%getStudentById_Some.
    split; [by eapply list_elem_of_lookup_2|done].
  - intros [Hin <-]. destruct o as [r s]. by apply getStudentById_unique.
Qed.

(** [find] on an array that was extended at its end. *)
Lemma find_app {A} (P : A → Prop) `{!∀ x, Decision (P x)} (l1 l2 : list A) :
  snd <$> list_find P (l1 ++ l2)
  = match snd <$> list_find P l1 with
    | Some x => Some x
    | None => snd <$> list_find P l2
    end.
Proof.
  induction l1 as [|x l1 IH]; [done|].
  cbn [app list_find]. destruct (decide (P x)); [done|].
  revert IH.
  by destruct (list_find P (l1 ++ l2)) as [[]|], (list_find P l1) as [[]|].
Qed.

(** X2.  On a roster whose greatest id is a number below 2^53 in
    magnitude, the student [addStudent] returns has that id plus one, it
    is the student found under that id afterwards, and the lookup of every
    other id is what it was. *)
Theorem addStudent_getStudentById (random : float) (name : string)
    (avatar : option string) (p : StudentDataManager) (m : Z) :
  Math_max (ids p) = Finite m → - 2 ^ 53 ≤ m < 2 ^ 53 →
  let o := fst (addStudent random name avatar p) in
  let p' := snd (addStudent random name avatar p) in
  objId o = Finite (m + 1) ∧
  getStudentById (Finite (m + 1)) p' = Some o ∧
  ∀ i, i ≠ Finite (m + 1) → getStudentById i p' = getStudentById i p.
Proof.
  intros Hm Hsafe o p'.
  assert (objId o = Finite (m + 1)) as Hid.
  { unfold o. by rewrite addStudent_id, Hm, jsnum_succ_exact. }
  assert (objId o ∉ ids p) as Hfresh.
  { intros Hin.
    pose proof (addStudent_id_above random name avatar p m Hm Hsafe) as H.
    rewrite Forall_forall in H. by apply H, jsnum_lt_irrefl in Hin. }
  apply getStudentById_None in Hfresh. split; [done|]. rewrite <- Hid.
  unfold getStudentById in *. subst p'. rewrite addStudent_students.
  fold o. split.
  - rewrite find_app, Hfresh. cbn [list_find].
    destruct (decide _); [reflexivity|congruence].
  - clear Hfresh. intros i Hi. rewrite find_app.
    destruct (snd <$> list_find _ (students p)); [done|].
    cbn [list_find]. destruct (decide _); [congruence|reflexivity].
Qed.

(** X2 on the roster [solo], whose greatest id is 1. *)
Lemma addStudent_getStudentById_witness :
  Math_max (ids solo) = Finite 1 ∧
  objId (fst (addStudent 0.5%float "b" None solo)) = Finite 2 ∧
  getStudentById (Finite 2) (snd (addStudent 0.5%float "b" None solo))
  = Some (fst (addStudent 0.5%float "b" None solo)).
Proof.
  split; [reflexivity|].
  destruct (addStudent_getStudentById 0.5%float "b" None solo 1 eq_refl
              ltac:(lia)) as (H1 & H2 & _).
  split; [exact H1|exact H2].
Defined.

(** At 2^53 the new id is the greatest id again, and the student found
    under it is the old one, not the one just added. *)
Lemma addStudent_shadowed :
  let o := fst (addStudent 0.5%float "b" None huge) in
  let p' := snd (addStudent 0.5%float "b" None huge) in
  objId o = Finite (2 ^ 53) ∧ name (snd o) = "b" ∧
  name <$> (snd <$> getStudentById (objId o) p') = Some "a".
Proof. repeat split. Qed.

(** ** Removing a student *)

(** X3.  On a roster with unique ids, [removeStudent] returns whether a
    student had the id; afterwards no student is found under that id, the
    lookup of every other id is what it was, and the roster is shorter by
    one exactly when the call returned [true]. *)
Theorem removeStudent_getStudentById (i : jsnum) (p : StudentDataManager) :
  NoDup (ids p) →
  let ok := fst (removeStudent i p) in
  let p' := snd (removeStudent i p) in
  (ok = true ↔ i ∈ ids p) ∧
  getStudentById i p' = None ∧
  (∀ j, j ≠ i → getStudentById j p' = getStudentById j p) ∧
  length (students p') = (length (students p) - if ok then 1 else 0)%nat.
Proof.
  intros Hnd. cbv zeta. unfold removeStudent.
  destruct (list_find _ _) as [[k x]|] eqn:E; cbn [fst snd].
  - apply list_find_Some in E as (Hk & Hid & _).
    pose proof (delete_Permutation _ _ _ Hk) as Hperm.
    assert (NoDup (objId x :: (objId <$> delete k (students p)))) as Hnd'.
    { unfold ids in Hnd. by rewrite Hperm in Hnd. }
    apply NoDup_cons in Hnd' as [Hx Hnd'].
    split; [|split; [|split]].
    + split; [|done]. intros _. unfold ids. apply list_elem_of_fmap.
      exists x. split; [done|]. by eapply list_elem_of_lookup_2.
    + apply getStudentById_None. by rewrite <- Hid.
    + intros j Hj. destruct (getStudentById j p) as [o|] eqn:Ej.
      * apply getStudentById_iff in Ej as [Hin Hjo]; [|done].
        apply getStudentById_iff; [done|]. split; [|done].
        rewrite Hperm in Hin. apply elem_of_cons in Hin as [->|]; [|done].
        congruence.
      * apply getStudentById_None in Ej. apply getStudentById_None.
        intros Hin. apply Ej. unfold ids in *. rewrite Hperm.
        by apply elem_of_cons; right.
    + cbn [students]. rewrite length_delete by done. lia.
  - split; [|split; [|split]].
    + split; [done|]. intros Hin. by apply getStudentById_None in Hin;
        [|unfold getStudentById; rewrite E].
    + unfold getStudentById. by rewrite E.
    + done.
    + lia.
Qed.

(** X3 on the roster with ids 5, 3, 8, 1, removing the student 3. *)
Lemma removeStudent_getStudentById_witness :
  NoDup (ids quartet) ∧
  getStudentById (Finite 3) (snd (removeStudent (Finite 3) quartet)) = None.
Proof.
  assert (NoDup (ids quartet)) as Hnd.
  { apply (bool_decide_unpack _). vm_compute. exact I. }
  split; [exact Hnd|].
  exact (proj1 (proj2 (removeStudent_getStudentById (Finite 3) quartet Hnd))).
Defined.

(** ** Marking and resetting *)

(** The lookup that found a student finds the object written in its place
    under the same id. *)
Lemma list_find_insert_same (l : list StudentObj) i k r s s' :
  list_find (λ o, objId o = i) l = Some (k, (r, s)) → id s' = id s →
  list_find (λ o, objId o = i) (<[k := (r, s')]> l) = Some (k, (r, s')).
Proof.
  intros (Hk & Hid & Hfirst)%list_find_Some Hs'. apply list_find_Some.
  split; [apply list_lookup_insert_eq; by eapply lookup_lt_Some|].
  split; [unfold objId in *; simpl in *; congruence|].
  intros j o Hj Hlt. rewrite list_lookup_insert_ne in Hj by lia. eauto.
Qed.

(** Marking one undrawn object moves it from the available to the drawn. *)
Lemma drawn_insert_length (l : list StudentObj) k r s now :
  l !! k = Some (r, s) → isDrawn s = false →
  length (filter (λ o, isDrawn (snd o)) (<[k := (r, setDrawn now s)]> l))
  = S (length (filter (λ o, isDrawn (snd o)) l)).
Proof.
  revert k. induction l as [|o l IH]; intros k Hk Hs; [done|].
  destruct k as [|k]; simpl in Hk.
  - injection Hk as ->.
    change (<[0%nat := (r, setDrawn now s)]> ((r, s) :: l))
      with ((r, setDrawn now s) :: l).
    rewrite !filter_cons.
    cbn [snd].
    destruct (decide (isDrawn (setDrawn now s))) as [_|n]; [|by destruct n].
    destruct (decide (isDrawn s)) as [H|_]; [by rewrite Hs in H|done].
  - change (<[S k := (r, setDrawn now s)]> (o :: l))
      with (o :: <[k := (r, setDrawn now s)]> l).
    rewrite !filter_cons. specialize (IH k Hk Hs).
    destruct (decide _); cbn [length]; by rewrite IH.
Qed.

(** X4.  [markStudentAsDrawn] returns [false] and changes nothing exactly
    when no student has the id or the first student with it is already
    drawn.  When it returns [true] that student was undrawn and is now
    stamped with the time of the call, one more student is drawn and one
    fewer available, and marking the same id again is refused. *)
Theorem markStudentAsDrawn_outcome (now now' : string) (i : jsnum)
    (p : StudentDataManager) :
  match markStudentAsDrawn now i p with
  | (true, p') =>
      ∃ r s, getStudentById i p = Some (r, s) ∧ isDrawn s = false ∧
             getStudentById i p' = Some (r, setDrawn now s) ∧
             length (getDrawnStudents p') = S (length (getDrawnStudents p)) ∧
             S (length (getAvailableStudents p'))
             = length (getAvailableStudents p) ∧
             markStudentAsDrawn now' i p' = (false, p')
  | (false, p') =>
      p' = p ∧
      (i ∉ ids p ∨
       ∃ r s, getStudentById i p = Some (r, s) ∧ isDrawn s = true)
  end.
Proof.
  unfold markStudentAsDrawn at 1.
  destruct (list_find _ _) as [[k [r s]]|] eqn:E.
  - destruct (isDrawn s) eqn:Hs.
    + split; [done|]. right. exists r, s. unfold getStudentById.
      by rewrite E.
    + exists r, s.
      pose proof (list_find_insert_same _ i k r s (setDrawn now s) E eq_refl)
        as E'.
      pose proof E as (Hk & _ & _)%list_find_Some.
      set (p' := mkPool _ _ _).
      assert (length (getDrawnStudents p') = S (length (getDrawnStudents p)))
        as Hdrawn.
      { unfold getDrawnStudents. subst p'. cbn [students].
        by apply drawn_insert_length. }
      split; [unfold getStudentById; by rewrite E|]. split; [done|].
      split; [unfold getStudentById; subst p'; cbn [students]; by rewrite E'|].
      split; [done|]. split.
      * pose proof (partition_identity p) as H1.
        pose proof (partition_identity p') as H2.
        assert (length (students p') = length (students p)) as H3
          by apply length_insert.
        unfold getAllStudents in *. lia.
      * unfold markStudentAsDrawn. subst p'. cbn [students]. by rewrite E'.
  - split; [done|]. left. apply getStudentById_None. unfold getStudentById.
    by rewrite E.
Qed.

Lemma roster_resetAllStudents clock p :
  roster (resetAllStudents clock p) = clearDrawn <$> roster p.
Proof.
  unfold roster, resetAllStudents. cbn [students].
  rewrite <- !list_fmap_compose. by apply list_fmap_ext.
Qed.

Lemma getAvailableStudents_resetAllStudents clock p :
  getAvailableStudents (resetAllStudents clock p)
  = students (resetAllStudents clock p).
Proof.
  unfold getAvailableStudents, resetAllStudents. cbn [students].
  induction (students p) as [|o l IH]; [done|].
  rewrite fmap_cons, filter_cons, decide_True by (simpl; tauto).
  by rewrite IH.
Qed.

(** X5.  After [resetAllStudents] every student of the roster is
    available and none is drawn, whatever was drawn before; the students
    are the same objects in the same order, each with its id, name, avatar
    and rarity unchanged.  Resetting a second time changes no student. *)
Theorem resetAllStudents_all_available (clock clock' : nat → string)
    (p : StudentDataManager) :
  let p' := resetAllStudents clock p in
  getAvailableStudents p' = getAllStudents p' ∧
  getDrawnStudents p' = [] ∧
  refs p' = refs p ∧
  roster p' = clearDrawn <$> roster p ∧
  students (resetAllStudents clock' p') = students p'.
Proof.
  cbv zeta. split; [apply getAvailableStudents_resetAllStudents|].
  split; [apply getDrawnStudents_resetAllStudents|].
  split; [|split; [apply roster_resetAllStudents|]].
  - unfold refs, resetAllStudents. cbn [students].
    rewrite <- list_fmap_compose. by apply list_fmap_ext.
  - unfold resetAllStudents. cbn [students].
    rewrite <- list_fmap_compose. by apply list_fmap_ext.
Qed.

(** ** validateData *)

Lemma filter_nil_Forall {A} (P : A → Prop) `{!∀ x, Decision (P x)}
    (l : list A) :
  filter P l = [] ↔ Forall (λ x, ¬ P x) l.
Proof.
  induction l as [|x l IH]; [by split|].
  rewrite filter_cons, Forall_cons. destruct (decide (P x)).
  - split; [done|]. by intros [? _].
  - rewrite IH. tauto.
Qed.

Lemma indexOf_Some x xs k :
  indexOf x xs = Some k ↔
  xs !! k = Some x ∧ ∀ j, (j < k)%nat → xs !! j ≠ Some x.
Proof.
  unfold indexOf. split.
  - intros H. destruct (list_find _ _) as [[k' y]|] eqn:E; [|done].
    injection H as ->. apply list_find_Some in E as (Hk & -> & Hfirst).
    split; [done|]. intros j Hj Hx. by eapply Hfirst.
  - intros [Hk Hfirst].
    assert (list_find (λ y, y = x) xs = Some (k, x)) as ->; [|done].
    apply list_find_Some. split; [done|]. split; [done|].
    intros j y Hy Hj ->. by eapply Hfirst.
Qed.

(** [indexOf] finds every element of the array. *)
Lemma indexOf_is_Some x xs k :
  xs !! k = Some x → ∃ k', indexOf x xs = Some k' ∧ (k' ≤ k)%nat.
Proof.
  intros Hk. unfold indexOf.
  destruct (list_find (λ y, y = x) xs) as [[k' y]|] eqn:E.
  - exists k'. split; [done|]. apply list_find_Some in E as (_ & _ & Hfirst).
    destruct (decide (k' ≤ k)%nat); [done|]. exfalso.
    eapply (Hfirst k x); [done|lia|done].
  - apply list_find_None in E. rewrite Forall_forall in E. exfalso.
    eapply E; [by eapply list_elem_of_lookup_2|done].
Qed.

(** The ids the filter of [validateData] keeps: those of the positions
    that are not the first occurrence of their id. *)
Lemma elem_of_duplicateIds x xs :
  x ∈ duplicateIds xs ↔
  ∃ j k, (j < k)%nat ∧ xs !! j = Some x ∧ xs !! k = Some x.
Proof.
  unfold duplicateIds. rewrite list_elem_of_fmap. split.
  - intros ([k y] & -> & Hin). apply list_elem_of_filter in Hin as [Hne Hin].
    apply elem_of_lookup_imap in Hin as (k' & y' & [= <- <-] & Hk).
    cbn [fst snd] in *.
    destruct (indexOf_is_Some _ _ _ Hk) as (j & Hj & Hle).
    exists j, k. apply indexOf_Some in Hj as Hj'. destruct Hj' as [Hj' _].
    split; [|done]. destruct (decide (j = k)) as [->|]; [done|lia].
  - intros (j & k & Hlt & Hj & Hk). exists (k, x). split; [done|].
    apply list_elem_of_filter. split.
    + cbn [fst snd]. intros [_ Hfirst]%indexOf_Some. by eapply Hfirst.
    + by apply (elem_of_lookup_imap_2 (λ index x, (index, x))).
Qed.

Lemma duplicateIds_nil xs : duplicateIds xs = [] ↔ NoDup xs.
Proof.
  rewrite NoDup_alt. split.
  - intros Hnil j k x Hj Hk.
    destruct (decide (j = k)) as [|Hne]; [done|]. exfalso.
    assert (x ∈ duplicateIds xs) as Hin.
    { apply elem_of_duplicateIds.
      destruct (decide (j < k)%nat); [exists j, k|exists k, j];
        (split; [lia|done]). }
    rewrite Hnil in Hin. by apply elem_of_nil in Hin.
  - intros Hnd. destruct (duplicateIds xs) as [|x l] eqn:E; [done|].
    assert (x ∈ duplicateIds xs) as Hin by (rewrite E; left).
    apply elem_of_duplicateIds in Hin as (j & k & Hlt & Hj & Hk).
    specialize (Hnd j k x Hj Hk). lia.
Qed.

Lemma validateData_valid_iff p :
  isValid (validateData p) = true ↔
  NoDup (ids p) ∧ Forall (λ s, name s ≠ "" ∧ avatar s ≠ "") (roster p).
Proof.
  unfold validateData. cbn [isValid].
  rewrite Nat.eqb_eq, length_zero_iff_nil, app_nil.
  rewrite <- duplicateIds_nil.
  assert (∀ l : list Student,
            (λ s, MissingInfo (id s))
              <$> filter (λ s, name s = "" ∨ avatar s = "") l = []
            ↔ Forall (λ s, name s ≠ "" ∧ avatar s ≠ "") l) as Hmissing.
  { intros l. split.
    - intros H%fmap_nil_inv. apply filter_nil_Forall in H.
      eapply Forall_impl; [exact H|]. intros s. simpl.
      destruct (decide (name s = "")), (decide (avatar s = "")); tauto.
    - intros H.
      assert (filter (λ s, name s = "" ∨ avatar s = "") l = []) as ->; [|done].
      apply filter_nil_Forall.
      eapply Forall_impl; [exact H|]. intros s. simpl. tauto. }
  rewrite <- Hmissing.
  destruct (duplicateIds (ids p)) as [|x l]; cbn [length Nat.ltb Nat.leb].
  - split; [by intros [_ ?]|by intros [_ ->]].
  - split; [by intros [? _]|by intros [? _]].
Qed.

Lemma validateData_issues_nil p :
  isValid (validateData p) = true → issues (validateData p) = [].
Proof.
  unfold validateData. cbn [isValid issues].
  by intros ?%Nat.eqb_eq%length_zero_iff_nil.
Qed.


Lemma string_or_nonempty s d : d ≠ "" → string_or s d ≠ "".
Proof.
  intros Hd. destruct s as [x|]; simpl; [|done].
  destruct (String.eqb_spec x ""); done.
Qed.

Lemma generateRarity_nonempty u : generateRarity u ≠ "".
Proof. unfold generateRarity. by repeat case_match. Qed.

Lemma roster_newStudentDataManager random :
  roster (newStudentDataManager random)
  = defaultStudent random <$> seq 0 defaultStudentCount.
Proof.
  unfold roster, newStudentDataManager, initializeDefaultData. cbn [students].
  rewrite fmap_imap. apply list_eq. intros i.
  rewrite list_lookup_imap. by destruct (_ !! i).
Qed.

(** X7.  The roster a new [StudentDataManager] starts with passes
    [validateData] with no issue, whatever rarities were drawn for it. *)
Theorem validateData_newStudentDataManager (random : nat → float) :
  validateData (newStudentDataManager random) = mkValidation true [].
Proof.
  assert (isValid (validateData (newStudentDataManager random)) = true) as H.
  { apply validateData_valid_iff. split.
    - apply uniquePositive_newStudentDataManager.
    - rewrite roster_newStudentDataManager. apply Forall_fmap, Forall_forall.
      intros i _. simpl. split.
      + by apply string_or_nonempty.
      + done. }
  pose proof (validateData_issues_nil _ H) as Hnil.
  destruct (validateData _); simpl in *. by subst.
Qed.

(** ** What an import installs *)

Lemma importEach_true random index items p :
  fst (importEach random index items p) = true →
  ∃ datas, items = Obj <$> datas.
Proof.
  revert index p. induction items as [|[data|] items IH]; intros index p H.
  - by exists [].
  - simpl in H. apply IH in H as [datas ->]. by exists (data :: datas).
  - done.
Qed.

Lemma importStudents_true random clock studentsData p :
  fst (importStudents random clock studentsData p) = true →
  ∃ datas, studentsData = Array (Obj <$> datas).
Proof.
  destruct studentsData as [|items]; [done|]. unfold importStudents.
  destruct (importEach _ _ _ _) as [[] p'] eqn:E; [|done]. intros _.
  destruct (importEach_true random 0 items
              (mkPool [] (nextRef p) (emitted p))) as [datas ->];
    [by rewrite E|]. by exists datas.
Qed.

Lemma importedStudent_truthyFields random index data :
  truthyFields (importedStudent random index data).
Proof.
  unfold truthyFields, importedStudent. cbn [id name avatar rarity].
  split; [|split; [|split]].
  - destruct (data_id data) as [x|]; [|by destruct index].
    destruct (jsnum_truthy x) eqn:E; [done|]. simpl.
    by destruct (Z.of_nat index + 1) eqn:?; [lia|..].
  - by apply string_or_nonempty.
  - by apply string_or_nonempty.
  - destruct (data_rarity data) as [x|]; [|apply generateRarity_nonempty].
    destruct (String.eqb_spec x ""); [apply generateRarity_nonempty|done].
Qed.

(** X8.  An import that succeeds installs only complete, undrawn students:
    each has a truthy id, a non-empty name, avatar and rarity, and is
    available.  So [validateData] can only object to the installed roster
    for duplicate ids. *)
Theorem importStudents_installs_complete (random : nat → float)
    (clock : nat → string) (studentsData : Payload) (p : StudentDataManager) :
  fst (importStudents random clock studentsData p) = true →
  let p' := snd (importStudents random clock studentsData p) in
  Forall (λ s, truthyFields s ∧ isDrawn s = false ∧ drawnAt s = None)
         (roster p') ∧
  getAvailableStudents p' = getAllStudents p' ∧
  (isValid (validateData p') = true ↔ NoDup (ids p')).
Proof.
  intros [datas ->]%importStudents_true p'.
  destruct (roster_importStudents random clock datas p) as [_ Hroster].
  fold p' in Hroster.
  assert (Forall (λ s, truthyFields s ∧ isDrawn s = false ∧ drawnAt s = None)
                 (roster p')) as Hall.
  { rewrite Hroster. apply Forall_forall.
    intros s (k & d & -> & _)%elem_of_lookup_imap.
    split; [apply importedStudent_truthyFields|done]. }
  split; [done|]. split.
  - unfold getAvailableStudents, getAllStudents.
    unfold roster in Hall. apply Forall_fmap in Hall.
    induction Hall as [|o l Ho _ IH]; [done|].
    simpl in Ho. destruct Ho as (_ & Ho & _).
    rewrite filter_cons, decide_True by (rewrite Ho; simpl; tauto).
    by rewrite IH.
  - rewrite validateData_valid_iff. split; [by intros [? _]|].
    intros Hnd. split; [done|]. eapply Forall_impl; [exact Hall|].
    simpl. intros s [(_ & ? & ? & _) _]. done.
Qed.

(** X8 on the import of a record that has no field at all. *)
Lemma importStudents_installs_complete_witness :
  let p' := snd (importStudents half clock0
                   (Array [Obj (mkData None None None None)]) emptyPool) in
  Forall (λ s, truthyFields s ∧ isDrawn s = false ∧ drawnAt s = None)
         (roster p').
Proof.
  exact (proj1 (importStudents_installs_complete half clock0
                  (Array [Obj (mkData None None None None)]) emptyPool
                  eq_refl)).
Defined.

(** X9.  When no record of the payload carries an id (or each carries the
    id 0), the import numbers the students 1, 2, ... in the order of the
    payload, so the installed ids are unique positive integers. *)
Theorem importStudents_numbers_students (random : nat → float)
    (clock : nat → string) (datas : list StudentData)
    (p : StudentDataManager) :
  Forall (λ d, data_id d = None ∨ data_id d = Some (Finite 0)) datas →
  let p' := snd (importStudents random clock (Array (Obj <$> datas)) p) in
  ids p' = (λ k : nat, Finite (Z.of_nat k + 1)) <$> seq 0 (length datas) ∧
  uniquePositive p'.
Proof.
  intros Hno p'.
  assert (ids p'
          = (λ k : nat, Finite (Z.of_nat k + 1)) <$> seq 0 (length datas))
    as Hids.
  { unfold p'. rewrite ids_importStudents. apply list_eq. intros k.
    rewrite list_lookup_imap, list_lookup_fmap.
    destruct (datas !! k) as [d|] eqn:Hk.
    - rewrite lookup_seq_lt by (by eapply lookup_lt_Some). simpl.
      rewrite Forall_forall in Hno.
      destruct (Hno d) as [E|E]; [by eapply list_elem_of_lookup_2|..];
        by rewrite E.
    - apply lookup_ge_None in Hk. by rewrite lookup_seq_ge by lia. }
  split; [done|]. unfold uniquePositive. rewrite Hids. split.
  - apply NoDup_fmap_2; [|apply NoDup_seq]. intros a b [=]. lia.
  - apply Forall_fmap, Forall_forall. intros a _. simpl. lia.
Qed.

(** X9 on a payload of two records that only carry names. *)
Lemma importStudents_numbers_students_witness :
  ids (snd (importStudents half clock0
              (Array (Obj <$> [mkData None (Some "a") None None;
                               mkData None (Some "b") None None]))
              emptyPool))
  = [Finite 1; Finite 2].
Proof.
  refine (proj1 (importStudents_numbers_students half clock0
                   [mkData None (Some "a") None None;
                    mkData None (Some "b") None None] emptyPool _)).
  repeat constructor.
Defined.

(** ** Export *)

Lemma exportStudents_markStudentAsDrawn now i p :
  exportStudents (snd (markStudentAsDrawn now i p)) = exportStudents p.
Proof.
  unfold markStudentAsDrawn.
  destruct (list_find _ _) as [[k [r s]]|] eqn:E; [|done].
  destruct (isDrawn s); [done|]. apply list_find_Some in E as (Hk & _ & _).
  unfold exportStudents. cbn [snd students].
  rewrite list_fmap_insert. apply list_insert_id.
  by rewrite list_lookup_fmap, Hk.
Qed.

(** X10.  [exportStudents] writes one record per student, and what it
    writes does not depend on the draw state: marking a student drawn and
    resetting the roster leave the exported records as they were. *)
Theorem exportStudents_ignores_draw_state (now : string) (i : jsnum)
    (clock : nat → string) (p : StudentDataManager) :
  length (exportStudents p) = length (getAllStudents p) ∧
  exportStudents (snd (markStudentAsDrawn now i p)) = exportStudents p ∧
  exportStudents (resetAllStudents clock p) = exportStudents p.
Proof.
  split; [apply length_fmap|].
  split; [apply exportStudents_markStudentAsDrawn|].
  unfold exportStudents, resetAllStudents. cbn [students].
  rewrite <- list_fmap_compose. by apply list_fmap_ext.
Qed.

(** ** Editing a student *)



(** * Further properties of CardDrawEngine *)

(** Only the random policy can fail to select from a non-empty snapshot. *)
Lemma selectStudent_is_Some e u S :
  currentMode e ≠ RANDOM → S ≠ [] → is_Some (selectStudent e u S).
Proof.
  intros Hmode HS. unfold selectStudent, weightedDraw.
  destruct (currentMode e); [done|by apply weightedSelect_is_Some|].
  destruct S as [|o S]; [done|].
  destruct (sequentialDraw_min o S) as (m & -> & _). eauto.
Qed.

(** ** The draw mode *)

(** X12.  [setDrawMode] accepts exactly the three mode names; when it
    accepts, [getCurrentMode] returns the name just set and nothing else
    of the engine has changed; when it throws, the name is none of the
    three.  Setting the mode [getCurrentMode] returns changes nothing. *)
Theorem setDrawMode_getCurrentMode (mode : string) (e : CardDrawEngine) :
  match setDrawMode mode e with
  | Some e' =>
      getCurrentMode e' = mode ∧
      studentDataManager e' = studentDataManager e ∧
      drawHistory e' = drawHistory e ∧ isDrawing e' = isDrawing e ∧
      rarityWeights e' = rarityWeights e ∧ notified e' = notified e
  | None => mode ∉ ["random"; "weighted"; "sequential"]
  end ∧
  setDrawMode (getCurrentMode e) e = Some e.
Proof.
  split.
  - unfold setDrawMode.
    destruct (String.eqb_spec mode "random") as [->|H1]; [done|].
    destruct (String.eqb_spec mode "weighted") as [->|H2]; [done|].
    destruct (String.eqb_spec mode "sequential") as [->|H3]; [done|].
    rewrite !elem_of_cons, elem_of_nil. tauto.
  - by destruct e as [? ? ? [] ? ?].
Qed.

(** ** The history as callers read it *)

(** X13.  [getDrawHistory(limit)] returns the [limit] most recent records
    of the history, newest first, or all of them when there are fewer; with
    no limit, or the limit 0, it returns the whole history, newest first. *)
Theorem getDrawHistory_most_recent (limit : option nat) (e : CardDrawEngine) :
  let h := drawHistory e in
  let k := match limit with Some (S n) => S n | _ => length h end in
  getDrawHistory limit e = rev (drop (length h - k) h) ∧
  length (getDrawHistory limit e) = Nat.min k (length h).
Proof.
  cbv zeta. unfold getDrawHistory.
  destruct limit as [[|n]|].
  - rewrite Nat.sub_diag, drop_0, length_rev. split; [done|lia].
  - rewrite firstn_rev. split; [done|].
    rewrite length_rev, length_drop. lia.
  - rewrite Nat.sub_diag, drop_0, length_rev. split; [done|lia].
Qed.

(** X14.  After a draw that succeeds, its record is the first one
    [getDrawHistory] returns, whatever the limit, and the full history is
    that record followed by the history as it read before. *)
Theorem getDrawHistory_latest_draw (env : DrawEnv) (limit : option nat)
    (e e' : CardDrawEngine) (res : DrawResult) :
  drawCard env e = (inr res, e') →
  head (getDrawHistory limit e') = Some (res_drawRecord res) ∧
  getDrawHistory None e' = res_drawRecord res :: getDrawHistory None e.
Proof.
  intros Hdraw. pose proof (drawCard_spec env e) as H. cbv zeta in H.
  rewrite Hdraw in H. destruct H as (_ & _ & r & s & _ & _ & -> & ->).
  unfold getDrawHistory. cbn [drawHistory res_drawRecord].
  rewrite rev_unit. split; [|done]. by destruct limit as [[|n]|].
Qed.

(** X14 on the first draw of the roster [solo]. *)
Lemma getDrawHistory_latest_draw_witness :
  ∃ res e', drawCard env0 (sequential solo) = (inr res, e') ∧
            head (getDrawHistory (Some 1%nat) e')
            = Some (res_drawRecord res).
Proof.
  destruct (drawCard env0 (sequential solo)) as [[err|res] e'] eqn:E;
    [by vm_compute in E|].
  exists res, e'. split; [done|].
  exact (proj1 (getDrawHistory_latest_draw env0 (Some 1%nat)
                  (sequential solo) e' res E)).
Defined.

(** ** [canDraw] and [drawCard] *)

(** X15.  [canDraw] and [drawCard] agree.  A draw rejected as busy, or for
    an exhausted pool, is one for which [canDraw] answers no with the
    matching reason; a draw that succeeds is one for which it answers yes
    with no reason, and the count the draw reports is one less than the
    available count [canDraw] gives.  The only draw that fails although
    [canDraw] answers yes is one in random mode whose selection went off
    the snapshot. *)
Theorem canDraw_drawCard (env : DrawEnv) (e : CardDrawEngine) :
  let c := canDraw e in
  match fst (drawCard env e) with
  | inl Busy =>
      canDraw_canDraw c = false ∧ canDraw_reason c = Some "正在抽卡中"
  | inl ExhaustedPool =>
      canDraw_canDraw c = false ∧
      canDraw_reason c = Some "没有可抽取的卡片"
  | inl TypeError => canDraw_canDraw c = true ∧ currentMode e = RANDOM
  | inr res =>
      canDraw_canDraw c = true ∧ canDraw_reason c = None ∧
      res_remainingCount res = Z.of_nat (canDraw_availableCount c) - 1
  end.
Proof.
  cbv zeta. unfold canDraw.
  cbn [canDraw_canDraw canDraw_reason canDraw_availableCount].
  draw_cases env e H; cbn [fst].
  - destruct H as [-> _]. done.
  - destruct H as (-> & -> & _). done.
  - destruct H as (-> & Hne & Hsel & _).
    destruct (getAvailableStudents _) as [|o l] eqn:E; [done|].
    split; [done|].
    destruct (currentMode e) eqn:Hm; [done|..];
      (destruct (selectStudent_is_Some e (random env) (o :: l)) as [x Hx];
         [by rewrite Hm|done|congruence]).
  - destruct H as (-> & Hne & r & s & _ & _ & -> & _).
    by destruct (getAvailableStudents _).
Qed.

Lemma isDrawing_step e op :
  isDrawing e = true → isReset op = false → isDrawing (step e op) = true.
Proof.
  intros Hbusy Hop. destruct op; try done; cbn [step onPool setPool isDrawing].
  - unfold drawCard, drawCard_sync. by rewrite Hbusy.
  - unfold setDrawMode. by repeat case_match.
Qed.

Lemma isDrawing_run ops e :
  isDrawing e = true → Forall (λ op, isReset op = false) ops →
  isDrawing (run ops e) = true.
Proof.
  revert e. induction ops as [|op ops IH]; intros e Hbusy Hops; [done|].
  apply Forall_cons in Hops as [Hop Hops]. cbn [run foldl].
  apply IH; [|done]. by apply isDrawing_step.
Qed.

(** X16.  From the moment a draw is suspended in its delay, and through
    every operation other than [reset] that runs before it resumes
    (adding, removing, updating, marking, importing, setting the mode or
    the weights, further calls of [drawCard]), [drawCard] is rejected as
    busy and changes nothing, and [canDraw] answers no, for that reason.
    [reset] lifts the guard: after a reset in the gap [drawCard] is not
    rejected as busy, although the first draw is still suspended.  When
    a suspended draw resumes, this one or another, the engine is idle. *)
Theorem drawCard_busy_in_gap (env env' : DrawEnv) (clock : nat → string)
    (e e1 : CardDrawEngine) (k : Pending) (ops : list Op) :
  drawCard_sync env e = (inr k, e1) →
  Forall (λ op, isReset op = false) ops →
  let e2 := run ops e1 in
  drawCard env' e2 = (inl Busy, e2) ∧
  canDraw_canDraw (canDraw e2) = false ∧
  canDraw_reason (canDraw e2) = Some "正在抽卡中" ∧
  fst (drawCard env' (reset clock e2)) ≠ inl Busy ∧
  ∀ k', isDrawing (snd (drawCard_resume k' e2)) = false.
Proof.
  intros Hsync Hops e2.
  assert (isDrawing e2 = true) as Hbusy.
  { apply isDrawing_run; [|done].
    pose proof (drawCard_sync_spec env e) as H. cbv zeta in H.
    rewrite Hsync in H. by destruct H as (_ & _ & r & s & _ & _ & _ & ->). }
  split; [unfold drawCard, drawCard_sync; by rewrite Hbusy|].
  unfold canDraw. cbn [canDraw_canDraw canDraw_reason]. rewrite Hbusy.
  split; [done|]. split; [done|]. split; [|done].
  pose proof (drawCard_spec env' (reset clock e2)) as H. cbv zeta in H.
  destruct (drawCard env' (reset clock e2)) as [[[]|res] e3]; try done.
  by destruct H as [H _].
Qed.

(** X16 on the first draw of the roster [solo], with an add, a second
    draw and a change of mode in its gap. *)
Lemma drawCard_busy_in_gap_witness :
  let ops := [OpAdd 0.5%float "b" None; OpDraw env0;
              OpSetDrawMode "random"] in
  ∃ k e1, drawCard_sync env0 (sequential solo) = (inr k, e1) ∧
          drawCard env0 (run ops e1) = (inl Busy, run ops e1) ∧
          length (students (studentDataManager (run ops e1))) = 2%nat.
Proof.
  intros ops.
  destruct (drawCard_sync env0 (sequential solo)) as [[err|k] e1] eqn:E;
    [by vm_compute in E|].
  exists k, e1. split; [done|]. split.
  - refine (proj1 (drawCard_busy_in_gap env0 env0 clock0 (sequential solo) e1
                     k ops E _)).
    by repeat constructor.
  - by vm_compute in E; injection E as <- <-.
Defined.

(** ** The preview of the next draw *)

Lemma insertById_Permutation o sorted : insertById o sorted ≡ₚ o :: sorted.
Proof.
  induction sorted as [|o' rest IH]; simpl; [done|].
  destruct (jsnum_sub_pos _ _); [|done]. rewrite IH. apply Permutation_swap.
Qed.

Lemma sortById_Permutation xs : sortById xs ≡ₚ xs.
Proof.
  induction xs as [|o xs IH]; simpl; [done|].
  by rewrite insertById_Permutation, IH.
Qed.

Lemma insertByWeight_Permutation weights o sorted :
  insertByWeight weights o sorted ≡ₚ o :: sorted.
Proof.
  induction sorted as [|o' rest IH]; simpl; [done|].
  destruct (PrimFloat.ltb _ _); [|done]. rewrite IH. apply Permutation_swap.
Qed.

Lemma sortByWeight_Permutation weights xs : sortByWeight weights xs ≡ₚ xs.
Proof.
  induction xs as [|o xs IH]; simpl; [done|].
  by rewrite insertByWeight_Permutation, IH.
Qed.

(** X17.  [previewNextDraw] lists available students only, and none more
    often than it is available: the preview is part of a rearrangement of
    the available snapshot.  It lists all of them in random mode, the first
    five of the ordering by weight (all, when there are fewer) in weighted
    mode, and one student in sequential mode; it is empty exactly when no
    student is available. *)
Theorem previewNextDraw_available (e : CardDrawEngine) :
  let avail := getAvailableStudents (studentDataManager e) in
  let preview := previewNextDraw e in
  (∃ rest, preview ++ rest ≡ₚ avail) ∧
  length preview
  = match currentMode e with
    | RANDOM => length avail
    | WEIGHTED => Nat.min 5 (length avail)
    | SEQUENTIAL => Nat.min 1 (length avail)
    end ∧
  (preview = [] ↔ avail = []).
Proof.
  cbv zeta. unfold previewNextDraw.
  destruct (getAvailableStudents _) as [|o l] eqn:E.
  { cbn [length Nat.eqb]. split; [by exists []|]. split; [|done].
    by destruct (currentMode e). }
  cbn [length Nat.eqb]. destruct (currentMode e).
  - split; [exists []; by rewrite app_nil_r|]. done.
  - pose proof (sortByWeight_Permutation (rarityWeights e) (o :: l)) as Hperm.
    split; [|split].
    + exists (drop 5 (sortByWeight (rarityWeights e) (o :: l))).
      by rewrite take_drop.
    + rewrite length_take. by rewrite Hperm.
    + split; [|done]. intros H. apply (f_equal length) in H.
      rewrite length_take, Hperm in H. simpl in H. lia.
  - pose proof (sortById_Permutation (o :: l)) as Hperm.
    destruct (sortById (o :: l)) as [|m rest] eqn:Es.
    { by apply Permutation_nil_cons in Hperm. }
    cbn [head option_list]. split; [by exists rest|]. done.
Qed.

(** X18.  In sequential mode the preview is the next draw: on an idle
    engine [drawCard] fails only for an exhausted pool, with an empty
    preview, and otherwise draws the one student the preview lists. *)
Theorem previewNextDraw_sequential (env : DrawEnv) (e : CardDrawEngine) :
  currentMode e = SEQUENTIAL → isDrawing e = false →
  match fst (drawCard env e) with
  | inr res => ∃ s, previewNextDraw e = [(res_student res, s)]
  | inl err => err = ExhaustedPool ∧ previewNextDraw e = []
  end.
Proof.
  intros Hmode Hidle. unfold previewNextDraw. rewrite Hmode.
  draw_cases env e H; cbn [fst].
  - destruct H as [? _]. congruence.
  - destruct H as (_ & -> & _). done.
  - destruct H as (_ & Hne & Hsel & _). exfalso.
    destruct (selectStudent_is_Some e (random env) _ ltac:(by rewrite Hmode)
                Hne) as [x Hx].
    congruence.
  - destruct H as (_ & Hne & r & s & Hsel & _ & -> & _).
    exists s. cbn [res_student].
    unfold selectStudent, sequentialDraw in Hsel. rewrite Hmode in Hsel.
    rewrite Hsel. by destruct (getAvailableStudents _).
Qed.

(** X18 on the roster with ids 5, 3, 8, 1, idle in sequential mode. *)
Lemma previewNextDraw_sequential_witness :
  currentMode (sequential quartet) = SEQUENTIAL ∧
  isDrawing (sequential quartet) = false ∧
  match fst (drawCard env0 (sequential quartet)) with
  | inr res => ∃ s, previewNextDraw (sequential quartet)
                    = [(res_student res, s)]
  | inl err => err = ExhaustedPool ∧ previewNextDraw (sequential quartet) = []
  end.
Proof.
  split; [reflexivity|]. split; [reflexivity|].
  exact (previewNextDraw_sequential env0 (sequential quartet)
           eq_refl eq_refl).
Defined.

(** ** Counting what is left *)

Lemma available_markStudentAsDrawn now i p :
  fst (markStudentAsDrawn now i p) = true →
  S (length (getAvailableStudents (snd (markStudentAsDrawn now i p))))
  = length (getAvailableStudents p).
Proof.
  unfold markStudentAsDrawn.
  destruct (list_find _ _) as [[k [r s]]|] eqn:E; [|done].
  destruct (isDrawn s) eqn:Hs; [done|]. intros _. cbn [snd].
  apply list_find_Some in E as (Hk & _ & _).
  set (p' := mkPool _ _ _).
  pose proof (partition_identity p) as H1.
  pose proof (partition_identity p') as H2.
  assert (length (getDrawnStudents p') = S (length (getDrawnStudents p)))
    as H3 by (by apply drawn_insert_length).
  assert (length (students p') = length (students p)) as H4
    by apply length_insert.
  unfold getAllStudents in *. lia.
Qed.

(** A draw that succeeds on unique ids takes one student out of the
    available ones and leaves the engine as it was otherwise. *)
Lemma drawCard_success_step env e res e' :
  NoDup (ids (studentDataManager e)) →
  drawCard env e = (inr res, e') →
  S (length (getAvailableStudents (studentDataManager e')))
  = length (getAvailableStudents (studentDataManager e)) ∧
  res_remainingCount res
  = Z.of_nat (length (getAvailableStudents (studentDataManager e))) - 1 ∧
  remainingCount (res_drawRecord res) = res_remainingCount res ∧
  ids (studentDataManager e') = ids (studentDataManager e) ∧
  isDrawing e' = false ∧ currentMode e' = currentMode e ∧
  drawHistory e' = drawHistory e ++ [res_drawRecord res].
Proof.
  intros Hnd Hdraw. pose proof (drawCard_spec env e) as H. cbv zeta in H.
  rewrite Hdraw in H. destruct H as (_ & _ & r & s & _ & Hin & -> & ->).
  cbn [studentDataManager res_remainingCount res_drawRecord remainingCount
       isDrawing currentMode drawHistory].
  destruct (markStudentAsDrawn_available (markTime env) _ r s Hnd Hin)
    as (k & _ & Hmark).
  split; [|by rewrite ids_markStudentAsDrawn].
  apply available_markStudentAsDrawn. by rewrite Hmark.
Qed.

(** X19.  On a roster with unique ids, a draw that succeeds takes exactly
    one student out of the available ones, and the remaining count it
    reports, in its result and in its record, is the number of students
    available after it, which is also what [canDraw] then counts. *)
Theorem drawCard_remainingCount (env : DrawEnv) (e e' : CardDrawEngine)
    (res : DrawResult) :
  NoDup (ids (studentDataManager e)) →
  drawCard env e = (inr res, e') →
  S (length (getAvailableStudents (studentDataManager e')))
  = length (getAvailableStudents (studentDataManager e)) ∧
  res_remainingCount res
  = Z.of_nat (length (getAvailableStudents (studentDataManager e'))) ∧
  remainingCount (res_drawRecord res) = res_remainingCount res ∧
  Z.of_nat (canDraw_availableCount (canDraw e')) = res_remainingCount res.
Proof.
  intros Hnd Hdraw.
  destruct (drawCard_success_step env e res e' Hnd Hdraw)
    as (Hlen & Hrem & Hrec & _).
  unfold canDraw. cbn [canDraw_availableCount].
  split; [done|]. split; [lia|]. split; [done|lia].
Qed.

(** X19 on the first draw of the roster with ids 5, 3, 8, 1. *)
Lemma drawCard_remainingCount_witness :
  NoDup (ids quartet) ∧
  ∃ res e', drawCard env0 (sequential quartet) = (inr res, e') ∧
            res_remainingCount res
            = Z.of_nat (length (getAvailableStudents (studentDataManager e'))).
Proof.
  assert (NoDup (ids quartet)) as Hnd.
  { apply (bool_decide_unpack _). vm_compute. exact I. }
  split; [exact Hnd|].
  destruct (drawCard env0 (sequential quartet)) as [[err|res] e'] eqn:E;
    [by vm_compute in E|].
  exists res, e'. split; [done|].
  exact (proj1 (proj2 (drawCard_remainingCount env0 (sequential quartet) e'
                         res Hnd E))).
Defined.

(** ** Drawing until the pool is exhausted *)

Lemma drawCard_succeeds env e :
  isDrawing e = false → currentMode e ≠ RANDOM →
  getAvailableStudents (studentDataManager e) ≠ [] →
  ∃ res e', drawCard env e = (inr res, e').
Proof.
  intros Hidle Hmode Hne. draw_cases env e H.
  - destruct H as [? _]. congruence.
  - by destruct H as (_ & ? & _).
  - destruct H as (_ & _ & Hsel & _).
    destruct (selectStudent_is_Some e (random env) _ Hmode Hne). congruence.
  - eauto.
Qed.

Lemma drawCards_count envs e :
  isDrawing e = false → currentMode e ≠ RANDOM →
  NoDup (ids (studentDataManager e)) →
  (length envs ≤ length (getAvailableStudents (studentDataManager e)))%nat →
  let e' := drawCards envs e in
  (length (getAvailableStudents (studentDataManager e')) + length envs)%nat
  = length (getAvailableStudents (studentDataManager e)) ∧
  length (drawHistory e') = (length (drawHistory e) + length envs)%nat ∧
  isDrawing e' = false.
Proof.
  revert e. induction envs as [|env envs IH]; intros e Hidle Hmode Hnd Hlen.
  { simpl. split; [lia|]. split; [lia|done]. }
  cbn [length] in Hlen. cbn [drawCards foldl].
  destruct (drawCard_succeeds env e Hidle Hmode) as (res & e1 & Hdraw).
  { intros E. rewrite E in Hlen. simpl in Hlen. lia. }
  rewrite Hdraw. cbn [snd].
  destruct (drawCard_success_step env e res e1 Hnd Hdraw)
    as (Hstep & _ & _ & Hids & Hidle1 & Hmode1 & Hhist).
  destruct (IH e1) as (H1 & H2 & H3);
    [done|by rewrite Hmode1|by rewrite Hids|lia|].
  fold (drawCards envs e1). cbn [length].
  split; [lia|]. split; [|done].
  rewrite H2, Hhist, length_app. simpl. lia.
Qed.

(** X20.  In weighted or sequential mode, on a roster with unique ids,
    every draw of an idle engine succeeds as long as a student is
    available: after [n] draws, [n] fewer students are available and the
    history is [n] records longer.  When as many draws were made as
    students were available, none is left and the next draw fails for an
    exhausted pool. *)
Theorem drawCards_until_exhausted (envs : list DrawEnv) (env : DrawEnv)
    (e : CardDrawEngine) :
  isDrawing e = false → currentMode e ≠ RANDOM →
  NoDup (ids (studentDataManager e)) →
  (length envs ≤ length (getAvailableStudents (studentDataManager e)))%nat →
  let e' := drawCards envs e in
  (length (getAvailableStudents (studentDataManager e')) + length envs)%nat
  = length (getAvailableStudents (studentDataManager e)) ∧
  length (drawHistory e') = (length (drawHistory e) + length envs)%nat ∧
  (length envs = length (getAvailableStudents (studentDataManager e)) →
   getAvailableStudents (studentDataManager e') = [] ∧
   fst (drawCard env e') = inl ExhaustedPool).
Proof.
  intros Hidle Hmode Hnd Hlen.
  destruct (drawCards_count envs e Hidle Hmode Hnd Hlen) as (H1 & H2 & H3).
  cbv zeta. split; [done|]. split; [done|]. intros Hall.
  assert (getAvailableStudents (studentDataManager (drawCards envs e)) = [])
    as Hnil by (apply length_zero_iff_nil; lia).
  split; [done|].
  unfold drawCard, drawCard_sync. by rewrite H3, Hnil.
Qed.

(** X20 on the roster with ids 5, 3, 8, 1 and four draws. *)
Lemma drawCards_until_exhausted_witness :
  let e' := drawCards [env0; env0; env0; env0] (sequential quartet) in
  getAvailableStudents (studentDataManager e') = [] ∧
  fst (drawCard env0 e') = inl ExhaustedPool.
Proof.
  assert (NoDup (ids quartet)) as Hnd.
  { apply (bool_decide_unpack _). vm_compute. exact I. }
  refine (proj2 (proj2 (drawCards_until_exhausted [env0; env0; env0; env0]
                          env0 (sequential quartet) eq_refl _ Hnd _)) _).
  - discriminate.
  - vm_compute. lia.
  - reflexivity.
Defined.

(** ** Starting over *)

(** X21.  [reset] starts a new cycle from any state, a draw in flight
    included: the history is empty, the engine idle, every student of the
    roster available, and the last notification is reset-complete with the
    size of the roster.  The roster keeps its ids, and the draw mode and
    the rarity weights are kept.  [canDraw] then answers yes exactly when
    the roster is not empty. *)
Theorem reset_new_cycle (clock : nat → string) (e : CardDrawEngine) :
  let e' := reset clock e in
  let p' := studentDataManager e' in
  drawHistory e' = [] ∧ isDrawing e' = false ∧
  getAvailableStudents p' = getAllStudents p' ∧
  ids p' = ids (studentDataManager e) ∧
  currentMode e' = currentMode e ∧ rarityWeights e' = rarityWeights e ∧
  last (notified e')
  = Some (ResetComplete (length (students (studentDataManager e)))) ∧
  canDraw_canDraw (canDraw e')
  = negb (length (students (studentDataManager e)) =? 0)%nat.
Proof.
  cbv zeta. unfold reset, canDraw.
  cbn [drawHistory isDrawing studentDataManager currentMode rarityWeights
       notified emit setIsDrawing setHistory setPool canDraw_canDraw].
  rewrite getAvailableStudents_resetAllStudents, ids_resetAllStudents.
  rewrite last_snoc. unfold getAllStudents, resetAllStudents.
  cbn [students]. rewrite length_fmap.
  repeat (split; [done|]). by destruct (students _).
Qed.

(** ** The order of sequential draws *)

Lemma jsnum_le_neq_lt a b : jsnum_le a b → a ≠ b → jsnum_lt a b.
Proof.
  destruct a as [|x], b as [|y]; simpl; try done.
  intros Hle Hne. destruct (decide (x = y)) as [->|]; [done|lia].
Qed.

(** With distinct references, reading through a reference finds the
    object that carries it. *)
Lemma deref_unique p r s :
  NoDup (refs p) → (r, s) ∈ students p → deref p r = Some s.
Proof.
  intros Hnd Hin. unfold deref. apply list_elem_of_lookup in Hin as [k Hk].
  destruct (list_find (λ o, fst o = r) (students p)) as [[k' o']|] eqn:E.
  - apply list_find_Some in E as (Hk' & Hr & _).
    assert (k' = k) as ->.
    { eapply NoDup_lookup; [exact Hnd| |]; unfold refs;
        rewrite list_lookup_fmap; [by rewrite Hk'|].
      rewrite Hk. simpl. by rewrite Hr. }
    rewrite Hk in Hk'. by injection Hk' as <-.
  - apply list_find_None in E. rewrite Forall_forall in E. exfalso.
    eapply E; [by eapply list_elem_of_lookup_2|done].
Qed.

Lemma ascending_snoc order m :
  ascending order → (∀ x, x ∈ order → jsnum_lt x m) → ascending (order ++ [m]).
Proof.
  intros Hasc Hm i j x y Hij Hi Hj.
  destruct (decide (j < length order)%nat) as [Hlt|Hge].
  - rewrite lookup_app_l in Hi, Hj by lia. by apply (Hasc i j).
  - rewrite lookup_app_l in Hi.
    2:{ apply lookup_lt_Some in Hj. rewrite length_app in Hj. simpl in Hj.
        lia. }
    rewrite lookup_app_r in Hj by lia.
    destruct (j - length order)%nat; [|done]. injection Hj as <-.
    apply Hm. by eapply list_elem_of_lookup_2.
Qed.

Lemma sequentialInv_drawCard env e order :
  sequentialInv e order →
  ∃ order', sequentialInv (snd (drawCard env e)) order'.
Proof.
  intros (Hidle & Hmode & Hids & Hrefs & Hhist & Hasc & Hbelow).
  draw_cases env e H; cbn [snd].
  - destruct H as [? _]. congruence.
  - destruct H as (_ & _ & ->). by exists order.
  - destruct H as (_ & _ & _ & ->). by exists order.
  - destruct H as (_ & Hne & r & s & Hsel & Hin & _ & ->).
    set (p := studentDataManager e) in *.
    destruct (markStudentAsDrawn_available (markTime env) p r s Hids Hin)
      as (k & Hk & Hmark).
    rewrite Hmark. cbn [snd].
    (* the selected student has the least id of the available ones *)
    assert (∀ o, o ∈ getAvailableStudents p → jsnum_le (id s) (objId o))
      as Hmin.
    { unfold selectStudent in Hsel. rewrite Hmode in Hsel.
      destruct (getAvailableStudents p) as [|o0 S0]; [done|].
      destruct (sequentialDraw_min o0 S0) as (m & Hm & _ & Hle).
      rewrite Hm in Hsel. injection Hsel as ->. exact Hle. }
    (* what is available afterwards was available, and is another student *)
    assert (∀ o, o ∈ filter (λ o, ¬ isDrawn (snd o))
                       (<[k := (r, setDrawn (markTime env) s)]> (students p)) →
                 o ∈ getAvailableStudents p ∧ objId o ≠ id s) as Hlater.
    { intros o [Hund Ho]%list_elem_of_filter.
      apply list_elem_of_lookup in Ho as [j Hj].
      destruct (decide (j = k)) as [->|Hjk].
      - rewrite list_lookup_insert_eq in Hj by (by eapply lookup_lt_Some).
        injection Hj as <-. by destruct Hund.
      - rewrite list_lookup_insert_ne in Hj by done. split.
        + apply list_elem_of_filter. split; [done|].
          by eapply list_elem_of_lookup_2.
        + intros Heq. apply Hjk.
          eapply NoDup_lookup; [exact Hids| |]; unfold ids;
            rewrite list_lookup_fmap; [by rewrite Hj; simpl; rewrite Heq
                                      |by rewrite Hk]. }
    exists (order ++ [id s]).
    unfold sequentialInv, getAvailableStudents.
    cbn [isDrawing currentMode studentDataManager students drawHistory].
    split; [done|]. split; [done|]. split.
    { unfold ids. cbn [students].
      by rewrite (ids_insert_same _ k r s). }
    split.
    { unfold refs. cbn [students]. by rewrite (refs_insert _ k r s). }
    split; [|split].
    + apply Forall2_app.
      * eapply Forall2_impl; [exact Hhist|]. cbn beta.
        intros rec x (s0 & Hs0 & Hx).
        apply list_elem_of_lookup in Hs0 as [j Hj].
        destruct (decide (j = k)) as [->|Hjk].
        -- fold p in Hj. rewrite Hk in Hj. injection Hj as Hr Hs.
           exists (setDrawn (markTime env) s). split.
           ++ rewrite <- Hr. apply list_elem_of_lookup. exists k.
              apply list_lookup_insert_eq. by eapply lookup_lt_Some.
           ++ by rewrite <- Hx, <- Hs.
        -- exists s0. split; [|done]. apply list_elem_of_lookup. exists j.
           by rewrite list_lookup_insert_ne.
      * constructor; [|constructor]. cbn [student].
        exists (setDrawn (markTime env) s). split; [|done].
        apply list_elem_of_lookup. exists k.
        apply list_lookup_insert_eq. by eapply lookup_lt_Some.
    + apply ascending_snoc; [done|]. intros x Hx.
      by apply (Hbelow x (r, s)).
    + intros x o [Hx|Hx]%elem_of_app Ho.
      * apply Hbelow; [done|]. by apply Hlater.
      * apply list_elem_of_singleton in Hx as ->.
        destruct (Hlater o Ho) as [Ho' Hne']. apply jsnum_le_neq_lt; auto.
Qed.

Lemma sequentialInv_drawCards envs e order :
  sequentialInv e order →
  ∃ order', sequentialInv (drawCards envs e) order'.
Proof.
  revert e order. induction envs as [|env envs IH]; intros e order He.
  { by exists order. }
  destruct (sequentialInv_drawCard env e order He) as [order1 He1].
  cbn [drawCards foldl]. by apply (IH _ order1).
Qed.

(** X22.  In sequential mode the draws come out in ascending order of id.
    On an idle engine with an empty history and a roster of unique ids,
    after any number of draws, those past exhaustion included, every
    record of the history reads the id of a student of the roster, and the
    ids read in the order of the draws ascend strictly. *)
Theorem sequential_draws_ascend (envs : list DrawEnv) (e : CardDrawEngine) :
  isDrawing e = false → currentMode e = SEQUENTIAL → drawHistory e = [] →
  NoDup (ids (studentDataManager e)) → NoDup (refs (studentDataManager e)) →
  ∃ order, drawOrder (drawCards envs e) = Some <$> order ∧ ascending order.
Proof.
  intros Hidle Hmode Hhist Hids Hrefs.
  destruct (sequentialInv_drawCards envs e []) as [order Hinv].
  { unfold sequentialInv. rewrite Hhist.
    do 4 (split; [done|]). split; [constructor|].
    split; [by intros i j x y _ ?|]. by intros x o ?%elem_of_nil. }
  destruct Hinv as (_ & _ & _ & Hrefs' & Hall & Hasc & _).
  exists order. split; [|done]. unfold drawOrder.
  induction Hall as [|rec x h order' (s & Hs & Hx) _ IH]; [done|].
  rewrite !fmap_cons. rewrite (deref_unique _ _ s Hrefs' Hs). simpl.
  rewrite Hx. f_equal. apply IH.
  intros i j a b Hij Ha Hb. by apply (Hasc (S i) (S j)); [lia|..].
Qed.

(** X22 on the roster with ids 5, 3, 8, 1 and three draws. *)
Lemma sequential_draws_ascend_witness :
  ∃ order,
    drawOrder (drawCards [env0; env0; env0] (sequential quartet))
    = Some <$> order ∧ ascending order.
Proof.
  refine (sequential_draws_ascend [env0; env0; env0] (sequential quartet)
            eq_refl eq_refl eq_refl _ _);
    apply (bool_decide_unpack _); vm_compute; exact I.
Defined.

(** ** What listeners are told *)

(** X23.  What one call of [drawCard] notifies, in order: nothing when it
    is rejected as busy; draw-error alone for an exhausted pool; otherwise
    draw-start with the number of students available, followed by exactly
    one of draw-complete, carrying what the call returns, and draw-error.
    Earlier notifications are never altered. *)
Theorem drawCard_notifications (env : DrawEnv) (e : CardDrawEngine) :
  let n := length (getAvailableStudents (studentDataManager e)) in
  notified (snd (drawCard env e))
  = notified e ++
    match fst (drawCard env e) with
    | inl Busy => []
    | inl ExhaustedPool => [DrawErrorEvent ExhaustedPool]
    | inl TypeError => [DrawStart n; DrawErrorEvent TypeError]
    | inr res =>
        [DrawStart n;
         DrawComplete (res_student res) (res_drawRecord res)
                      (res_remainingCount res)]
    end.
Proof.
  cbv zeta. draw_cases env e H; cbn [fst snd].
  - destruct H as [_ ->]. by rewrite app_nil_r.
  - by destruct H as (_ & _ & ->).
  - by destruct H as (_ & _ & _ & ->).
  - by destruct H as (_ & _ & r & s & _ & _ & -> & ->).
Qed.

(** ** What a draw leaves alone *)

(** X24.  An awaited [drawCard], whatever its outcome, edits no profile
    and no setting: id, name, avatar and rarity of every student are what
    they were (the exported records are unchanged), the roster holds the
    same objects in the same order, and the draw mode, the rarity weights
    and the drawing flag are as the call found them. *)
Theorem drawCard_keeps_profiles (env : DrawEnv) (e : CardDrawEngine) :
  let e' := snd (drawCard env e) in
  exportStudents (studentDataManager e')
  = exportStudents (studentDataManager e) ∧
  refs (studentDataManager e') = refs (studentDataManager e) ∧
  currentMode e' = currentMode e ∧ rarityWeights e' = rarityWeights e ∧
  isDrawing e' = isDrawing e.
Proof.
  cbv zeta. draw_cases env e H; cbn [snd].
  - by destruct H as [_ ->].
  - by destruct H as (? & _ & ->).
  - by destruct H as (? & _ & _ & ->).
  - destruct H as (Hidle & _ & r & s & _ & _ & _ & ->).
    cbn [studentDataManager currentMode rarityWeights isDrawing].
    split; [apply exportStudents_markStudentAsDrawn|].
    split; [|done]. unfold markStudentAsDrawn.
    destruct (list_find _ _) as [[k [r0 s0]]|] eqn:E; [|done].
    destruct (isDrawn s0); [done|]. apply list_find_Some in E as (Hk & _ & _).
    unfold refs. cbn [snd students]. by apply refs_insert with s0.
Qed.
